(** * compar: a parser-combinator engine and its example grammars

    A shallow embedding of [src/parser.ts] (the combinator core),
    [src/math.ts] (the arithmetic grammar) and the literals of
    [src/json.ts], with the properties of the specification and further
    properties of the code proved over it.

    Conventions of the embedding.
    - A JavaScript string is a [string], its code units the characters of
      the string (8-bit here, where the host has 16); a character (a
      string of length one, as produced by [text[0]]) is a [string] too,
      as in the source.
    - [line] and [column] are integers ([Z]).
    - A JavaScript call may not return (the repetition combinators loop on
      a parser that succeeds without consuming).  A computation is
      therefore a function of a recursion budget ([Fuel]): [None] means
      that the budget was exhausted, [Some r] that the call returned [r].
      Only the recursive knots of the source ([many]/[some], the [rest]
      of [chainLeft], the thunks of the grammar) spend budget.
    - A JavaScript number is a binary64 float ([float]). *)

From Stdlib Require Import String Ascii ZArith List Bool Lia.
From Stdlib Require Import Floats.
Import ListNotations.

Set Implicit Arguments.
Local Open Scope string_scope.
Local Open Scope Z_scope.

(** ** Computations that may not return *)

Definition Fuel (X : Type) : Type := nat -> option X.

Definition ret {X} (x : X) : Fuel X := fun _ => Some x.

Definition andThen {X Y} (c : Fuel X) (k : X -> Fuel Y) : Fuel Y :=
  fun n => match c n with
           | Some x => k x n
           | None => None
           end.

Definition diverges {X} : Fuel X := fun _ => None.

Notation "x <- c ;; k" := (andThen c (fun x => k))
  (at level 61, c at next level, right associativity).

(** ** Types of [parser.ts] *)

Record Position : Type := mkPosition { line : Z; column : Z }.

Record State : Type := mkState { position : Position; text : string }.

(** [Result<T> = ParserError | ParserResult<T>], discriminated by
    [isError]. *)
Inductive Result (T : Type) : Type :=
| ParserError (position : Position) (message : string)
| ParserResult (value : T) (state : State).

Arguments ParserError {T} position message.
Arguments ParserResult {T} value state.

Definition isError {T} (r : Result T) : bool :=
  match r with
  | ParserError _ _ => true
  | ParserResult _ _ => false
  end.

Definition Lazy (T : Type) : Type := unit -> T.

Definition makeInput (text : string) : State :=
  {| text := text; position := {| line := 1; column := 1 |} |}.

(** The character with code 10, written ['\n'] in the source. *)
Definition newline : string := String (ascii_of_nat 10) "".
Definition tab : string := String (ascii_of_nat 9) "".

Definition getCharacterFromInput (input : State) : option (string * State) :=
  match text input with
  | "" => None
  | String c rest =>
      let first := String c "" in
      if String.eqb first newline then
        Some (first, {| position := {| line := line (position input) + 1;
                                       column := 1 |};
                        text := rest |})
      else
        Some (first, {| position := {| line := line (position input);
                                       column := column (position input) + 1 |};
                        text := rest |})
  end.

Definition ParserFn (A : Type) : Type := State -> Fuel (Result A).

Record Parser (A : Type) : Type := mkParser { parse : ParserFn A }.

Arguments mkParser {A} parse.
Arguments parse {A} p input fuel%_nat.

(** What a template literal [`${v}`] prints for a value [v]. *)
Class ToString (A : Type) : Type := toString : A -> string.

#[export] Instance ToString_string : ToString string := fun s => s.

(** [l.join(sep)] on an array of strings. *)
Definition join (sep : string) (l : list string) : string :=
  String.concat sep l.

Module Parser.

Definition EMPTY_ERRROR {A} : Result A :=
  ParserError {| line := 1; column := 1 |} "Empty parser".

Definition bind {A B} (p : Parser A) (f : A -> Parser B) : Parser B :=
  mkParser (fun input =>
    result <- parse p input ;;
    match result with
    | ParserError pos msg => ret (ParserError pos msg)
    | ParserResult value rest => parse (f value) rest
    end).

Definition parseIf {A} `{ToString A} (p : Parser A) (predicate : A -> bool)
    (description : string) : Parser A :=
  mkParser (fun input =>
    result <- parse p input ;;
    match result with
    | ParserError pos _ =>
        ret (ParserError pos
               ("Expected " ++ description ++ ", but reach the end of input"))
    | ParserResult value rest =>
        if predicate value then ret (ParserResult value rest)
        else ret (ParserError (position input)
                    ("Expected " ++ description ++ ", but got "
                       ++ toString value))
    end).

Definition pure {A} (a : A) : Parser A :=
  mkParser (fun input => ret (ParserResult a input)).

Definition fmap {A B} (p : Parser A) (f : A -> B) : Parser B :=
  mkParser (fun input =>
    result <- parse p input ;;
    match result with
    | ParserError pos msg => ret (ParserError pos msg)
    | ParserResult value rest => ret (ParserResult (f value) rest)
    end).

Definition apply {A B} (p : Parser A) (fp : Parser (A -> B)) : Parser B :=
  mkParser (fun input =>
    result <- parse fp input ;;
    match result with
    | ParserError pos msg => ret (ParserError pos msg)
    | ParserResult f rest => parse (fmap p f) rest
    end).

Definition empty {A} : Parser A :=
  mkParser (fun input => ret (ParserError (position input) "Empty parser")).

Definition choice {A} (p1 p2 : Parser A) : Parser A :=
  mkParser (fun input =>
    result <- parse p1 input ;;
    if isError result then parse p2 input else ret result).

Definition lazyChoice {A} (p1 p2 : Lazy (Parser A)) : Parser A :=
  mkParser (fun input =>
    result <- parse (p1 tt) input ;;
    if isError result then parse (p2 tt) input else ret result).

(** The [for (const p of ps)] loop of [multipleChoice]: [result] is the
    loop variable, [break] leaves the rest of [ps] untouched. *)
Fixpoint multipleChoice_loop {A} (ps : list (Parser A)) (input : State)
    (result : Result A) : Fuel (Result A) :=
  match ps with
  | [] => ret result
  | p :: ps' =>
      result' <- parse p input ;;
      if negb (isError result') then ret result'
      else multipleChoice_loop ps' input result'
  end.

Definition multipleChoice {A} (ps : list (Parser A)) : Parser A :=
  mkParser (fun input => multipleChoice_loop ps input EMPTY_ERRROR).

Fixpoint multipleLazyChoice_loop {A} (ps : list (Lazy (Parser A)))
    (input : State) (result : Result A) : Fuel (Result A) :=
  match ps with
  | [] => ret result
  | p :: ps' =>
      result' <- parse (p tt) input ;;
      if negb (isError result') then ret result'
      else multipleLazyChoice_loop ps' input result'
  end.

Definition multipleLazyChoice {A} (ps : list (Lazy (Parser A))) : Parser A :=
  mkParser (fun input => multipleLazyChoice_loop ps input EMPTY_ERRROR).

(** A parser that never returns: what a recursive definition denotes once
    its budget is spent. *)
Definition bottom {A} : Parser A := mkParser (fun _ => diverges).

(** [many] and [some] call each other.  [many_upto d p] is [many(p)] with
    at most [d] nested calls of [many], the body of [some] written in
    place; [many p] takes [d] from the budget of the run. *)
Fixpoint many_upto {A} (d : nat) (p : Parser A) : Parser (list A) :=
  match d with
  | O => bottom
  | S d' =>
      choice
        (bind p (fun a => bind (many_upto d' p) (fun as_ => pure (a :: as_))))
        (pure [])
  end.

Definition many {A} (p : Parser A) : Parser (list A) :=
  mkParser (fun input n => parse (many_upto n p) input n).

Definition some {A} (p : Parser A) : Parser (list A) :=
  bind p (fun a => bind (many p) (fun as_ => pure (a :: as_))).

Definition sepBySome {A Sep} (p : Parser A) (sep : Parser Sep)
    : Parser (list A) :=
  bind p (fun a =>
    bind (many (bind sep (fun _ => p))) (fun as_ => pure (a :: as_))).

Definition sepBy {A Sep} (p : Parser A) (sep : Parser Sep) : Parser (list A) :=
  choice (sepBySome p sep) (pure []).

(** The local recursive function [rest] of [chainLeft], with at most [d]
    nested calls. *)
Fixpoint chainLeft_rest {A} (d : nat) (p : Parser A)
    (op : Parser (A -> A -> A)) (a : A) : Parser A :=
  match d with
  | O => bottom
  | S d' =>
      choice
        (bind op (fun f => bind p (fun b => chainLeft_rest d' p op (f a b))))
        (pure a)
  end.

Definition chainLeft {A} (p : Parser A) (op : Parser (A -> A -> A))
    : Parser A :=
  bind p (fun a =>
    mkParser (fun input n => parse (chainLeft_rest n p op a) input n)).

End Parser.

(** ** Primitive parsers *)

Definition item : Parser string :=
  mkParser (fun input =>
    match getCharacterFromInput input with
    | None => ret (ParserError (position input) "Unexpected end of input")
    | Some (character, rest) => ret (ParserResult character rest)
    end).

Definition WHITE_SPACES : list string := [" "; newline; tab].

(** [includes] of an array of strings. *)
Definition includes (l : list string) (c : string) : bool :=
  existsb (String.eqb c) l.

(** [a >= b] and [a <= b] on strings compare code units in order. *)
Definition str_ge (a b : string) : bool := String.leb b a.
Definition str_le (a b : string) : bool := String.leb a b.

Definition digit : Parser string :=
  Parser.parseIf item (fun c => str_ge c "0" && str_le c "9") "a digit".
Definition lower : Parser string :=
  Parser.parseIf item (fun c => str_ge c "a" && str_le c "z")
    "a lower case letter".
Definition upper : Parser string :=
  Parser.parseIf item (fun c => str_ge c "A" && str_le c "Z")
    "an upper case letter".
Definition whitespace : Parser string :=
  Parser.parseIf item (fun c => includes WHITE_SPACES c) "a whitespace".
Definition letter : Parser string := Parser.choice lower upper.
Definition alphanum : Parser string := Parser.choice letter digit.
Definition whitespaces : Parser (list string) := Parser.many whitespace.

Definition token {A} (p : Parser A) : Parser A :=
  Parser.bind p (fun a => Parser.bind whitespaces (fun _ => Parser.pure a)).

Definition char (c : string) : Parser string :=
  Parser.parseIf item (fun character => String.eqb character c) c.

(** [str] recurses on [s.slice(1)]: structurally on the string. *)
Fixpoint str (s : string) : Parser string :=
  match s with
  | "" => Parser.pure ""
  | String c0 s' =>
      Parser.bind (char (String c0 ""))
        (fun c => Parser.bind (str s') (fun cs => Parser.pure (c ++ cs)))
  end.

Definition symbol (s : string) : Parser string := token (str s).

(** ** The arithmetic grammar ([math.ts]) *)

Module Math.

Import Parser.

(** [Number(s)] on unsigned decimal literals without exponent, the only
    strings the grammar passes to it: digits, with an optional dot among
    them.  The value is the binary64 number nearest to the decimal (ties
    to even), obtained as the correctly rounded quotient of the digits
    read as an integer by the power of ten of the fraction.  The empty
    string gives [0]; any other string is mapped to [NaN]. *)
Definition digitValue (c : ascii) : option Z :=
  let n := Z.of_nat (nat_of_ascii c) in
  if (48 <=? n) && (n <=? 57) then Some (n - 48) else None.

(** [decimal s m k dot any] reads [s] after the digits of value [m], [k]
    of them behind the dot; [dot] tells whether the dot was passed and
    [any] whether a digit was read. *)
Fixpoint decimal (s : string) (m : Z) (k : nat) (dot any : bool)
    : option (Z * nat) :=
  match s with
  | "" => if any then Some (m, k) else None
  | String c s' =>
      match digitValue c with
      | Some v => decimal s' (10 * m + v) (if dot then S k else k) dot true
      | None =>
          if (Ascii.eqb c "."%char) && negb dot then decimal s' m k true any
          else None
      end
  end.

Definition pow10 (k : nat) : positive := Nat.iter k (Pos.mul 10) 1%positive.

Definition Number (s : string) : float :=
  if String.eqb s "" then 0%float
  else
    match decimal s 0 0%nat false false with
    | Some (Z.pos m, k) =>
        SF2Prim (SpecFloat.SFdiv 53 1024
                   (SpecFloat.S754_finite false m 0)
                   (SpecFloat.S754_finite false (pow10 k) 0))
    | Some (_, _) => 0%float
    | None => nan
    end.

Inductive Operator : Type := add_op | sub_op | mul_op | div_op.

(** An [Operator] is the string of its symbol. *)
Definition operatorText (op : Operator) : string :=
  match op with
  | add_op => "+"
  | sub_op => "-"
  | mul_op => "*"
  | div_op => "/"
  end.

Inductive Expression : Type :=
| number (value : float)
| binaryExpression (operator : Operator) (left right : Expression).

Definition Operation (op : Operator) : float -> float -> float :=
  match op with
  | add_op => fun a b => (a + b)%float
  | sub_op => fun a b => (a - b)%float
  | mul_op => fun a b => (a * b)%float
  | div_op => fun a b => (a / b)%float
  end.

Definition makeExpression (op : Operator) (left right : Expression)
    : Expression :=
  binaryExpression op left right.

Definition operator (op : Operator)
    : Parser (Expression -> Expression -> Expression) :=
  fmap (symbol (operatorText op)) (fun _ => makeExpression op).

Definition plusMinus := choice (operator add_op) (operator sub_op).
Definition mulDiv := choice (operator mul_op) (operator div_op).
Definition intString : Parser (list string) := some digit.
Definition realString : Parser (list string) :=
  bind intString (fun ds =>
    bind (char ".") (fun _ =>
      bind intString (fun rs => pure (ds ++ ["."] ++ rs)%list))).
Definition numeric : Parser Expression :=
  fmap
    (bind (token (choice realString intString))
       (fun s => pure (Number (join "" s))))
    (fun value => number value).

(** [lazyExpr], [lazyFactor] and [lazyTerm] are thunks that call each
    other through [lazyExpr]; the budget bounds the nesting of
    [lazyExpr()] calls. *)
Definition lazyFactor_of (lazyExpr : Lazy (Parser Expression))
    : Lazy (Parser Expression) :=
  fun _ =>
    lazyChoice
      (fun _ => numeric)
      (fun _ =>
         bind (symbol "(") (fun _ =>
           bind (lazyExpr tt) (fun e =>
             bind (symbol ")") (fun _ => pure e)))).

Definition lazyTerm_of (lazyExpr : Lazy (Parser Expression))
    : Lazy (Parser Expression) :=
  fun _ => chainLeft (lazyFactor_of lazyExpr tt) mulDiv.

Fixpoint lazyExpr_upto (d : nat) : Lazy (Parser Expression) :=
  fun _ =>
    match d with
    | O => bottom
    | S d' => chainLeft (lazyTerm_of (lazyExpr_upto d') tt) plusMinus
    end.

Definition lazyExpr : Lazy (Parser Expression) :=
  fun _ => mkParser (fun input n => parse (lazyExpr_upto n tt) input n).

Definition lazyFactor : Lazy (Parser Expression) := lazyFactor_of lazyExpr.
Definition lazyTerm : Lazy (Parser Expression) := lazyTerm_of lazyExpr.

Definition expr : Parser Expression := lazyExpr tt.

(** Modelled from the spec: the [evaluate] export of the math module,
    which the tests call and the sources do not contain.  It walks the
    expression tree recursively and applies the [Operation] of each
    node. *)
Fixpoint evaluate (e : Expression) : float :=
  match e with
  | number value => value
  | binaryExpression op l r => Operation op (evaluate l) (evaluate r)
  end.

End Math.

(** ** Vocabulary of the statements *)

(** [nonZero] of the JSON grammar ([json.ts]). *)
Definition nonZero : Parser string :=
  Parser.parseIf digit (fun c => negb (String.eqb c "0")) "a non-zero digit".

(** The two readings of [4 - 2 + 3]. *)
Definition tree_left : Math.Expression :=
  Math.binaryExpression Math.add_op
    (Math.binaryExpression Math.sub_op (Math.number 4) (Math.number 2))
    (Math.number 3).

Definition tree_right : Math.Expression :=
  Math.binaryExpression Math.sub_op
    (Math.number 4)
    (Math.binaryExpression Math.add_op (Math.number 2) (Math.number 3)).

(** The character with code 10. *)
Definition LF : ascii := ascii_of_nat 10.

(** The position after one character, by the newline rule, and after the
    characters of a string in order. *)
Definition advanceChar (pos : Position) (c : ascii) : Position :=
  if Ascii.eqb c LF
  then {| line := line pos + 1; column := 1 |}
  else {| line := line pos; column := column pos + 1 |}.

Fixpoint advance (pos : Position) (s : string) : Position :=
  match s with
  | "" => pos
  | String c s' => advance (advanceChar pos c) s'
  end.

(** ** The approximation order

    [approx p q]: whatever [p] returns within some budget, [q] returns
    within every budget at least as large.  A parser is [monotone] when it
    approximates itself: more budget never changes an answer already
    given.  Every parser built by the combinators from monotone parsers is
    monotone, so a result computed at one budget is the result of the
    call. *)

Definition approx {A} (p q : Parser A) : Prop :=
  forall input n m r,
    (n <= m)%nat -> parse p input n = Some r -> parse q input m = Some r.

Definition monotone {A} (p : Parser A) : Prop := approx p p.

(** The parser that reads its recursion depth from the budget. *)
Definition diag {A} (P : nat -> Parser A) : Parser A :=
  mkParser (fun input n => parse (P n) input n).

(** ** The JSON grammar ([json.ts])

    The productions that decode neither numbers nor escaped characters:
    the value type, the literals and the text of an integer. *)

Module Json.

Import Parser.

#[local] Unset Elimination Schemes.

Inductive Json : Type :=
| JsonNull
| JsonBool (value : bool)
| JsonNumber (value : float)
| JsonString (value : string)
| JsonArray (value : list Json)
| JsonObject (value : list (string * Json)).

#[local] Set Elimination Schemes.

Definition NULL : Json := JsonNull.
Definition TRUE : Json := JsonBool true.
Definition FALSE : Json := JsonBool false.

Definition jsonNull : Parser Json := fmap (str "null") (fun _ => NULL).

Definition jsonBool : Parser Json :=
  choice (fmap (str "true") (fun _ => TRUE))
         (fmap (str "false") (fun _ => FALSE)).

Definition none : Parser string := pure "".

Definition integer : Parser string :=
  choice (char "0")
    (bind nonZero (fun c =>
       bind (many digit) (fun cs => pure (join "" (c :: cs))))).

End Json.

(** ** Vocabulary of the further statements *)

(** A character as the string of length one, and the characters of a
    string as the array of these. *)
Definition single (c : ascii) : string := String c "".

Definition chars (s : string) : list string :=
  map single (list_ascii_of_string s).

(** Every character of [s] satisfies [pr]; the text [t] is empty or begins
    with a character that [pr] rejects. *)
Fixpoint allChars (pr : string -> bool) (s : string) : bool :=
  match s with
  | "" => true
  | String c s' => pr (single c) && allChars pr s'
  end.

Definition headFails (pr : string -> bool) (t : string) : bool :=
  match t with
  | "" => true
  | String c _ => negb (pr (single c))
  end.

(** The predicate of [whitespace]. *)
Definition isWhitespace (c : string) : bool := includes WHITE_SPACES c.

(** The code of a character, and the characters whose code lies between
    two bounds. *)
Definition code (c : ascii) : nat := nat_of_ascii c.

Definition inRange (lo hi : nat) (c : ascii) : bool :=
  (lo <=? code c)%nat && (code c <=? hi)%nat.

(** The predicate of [digit]. *)
Definition isDigit (c : string) : bool := str_ge c "0" && str_le c "9".

(** What a character class returns on a state, told by the codes it
    accepts: the first character and the state after it when the class
    accepts it, a failure at the position of the state otherwise. *)
Definition classResult (accept : ascii -> bool) (description : string)
    (s : State) : option (Result string) :=
  match text s with
  | "" =>
      Some (ParserError (position s)
              ("Expected " ++ description ++ ", but reach the end of input"))
  | String c rest =>
      if accept c
      then Some (ParserResult (single c)
                   {| position := advanceChar (position s) c; text := rest |})
      else Some (ParserError (position s)
                   ("Expected " ++ description ++ ", but got " ++ single c))
  end.

(** The number of newlines of a string. *)
Fixpoint newlines (s : string) : Z :=
  match s with
  | "" => 0
  | String c s' => (if Ascii.eqb c LF then 1 else 0) + newlines s'
  end.

(** [choice] nested to the right over a non-empty list. *)
Fixpoint choiceList {A} (p : Parser A) (ps : list (Parser A)) : Parser A :=
  match ps with
  | [] => p
  | q :: qs => Parser.choice p (choiceList q qs)
  end.

(** [p] fails on [s] (within budget [n]). *)
Definition failsAt {A} (p : Parser A) (s : State) (n : nat) : Prop :=
  exists pos msg, parse p s n = Some (ParserError pos msg).

(** [p] returns on every state, and every success of [p] shortens the
    remaining text. *)
Definition returns {A} (p : Parser A) : Prop :=
  forall s n, parse p s n <> None.

Definition consuming {A} (p : Parser A) : Prop :=
  forall s n a st,
    parse p s n = Some (ParserResult a st) ->
    (String.length (text st) < String.length (text s))%nat.

(** [runs p n s l s']: from [s], successive runs of [p] succeed with the
    values [l] in order and end in [s']. *)
Inductive runs {A} (p : Parser A) (n : nat) : State -> list A -> State -> Prop :=
| runs_nil s : runs p n s [] s
| runs_cons s a s1 l s' :
    parse p s n = Some (ParserResult a s1) ->
    runs p n s1 l s' ->
    runs p n s (a :: l) s'.

(** The step of [chainLeft]: an operator, then an operand. *)
Definition opThen {A} (p : Parser A) (op : Parser (A -> A -> A))
    : Parser ((A -> A -> A) * A) :=
  Parser.bind op (fun f => Parser.bind p (fun b => Parser.pure (f, b))).

(** What [chainLeft] makes of a first operand and the pairs that follow. *)
Definition foldPairs {A} (a : A) (pairs : list ((A -> A -> A) * A)) : A :=
  fold_left (fun acc fb => fst fb acc (snd fb)) pairs a.

Ltac unfold_parsers :=
  unfold Parser.bind, Parser.fmap, Parser.parseIf, Parser.choice,
    Parser.lazyChoice, Parser.pure, Parser.empty, Parser.bottom, diag,
    andThen, ret, diverges in *;
  cbn [parse] in *.

(** One step of a run: name the result of the first sub-call of the
    hypothesis [H], discard the case where it did not return, and replay
    it in the goal with [Hp]. *)
Ltac first_call Hp Hle H :=
  match type of H with
  | context [parse ?p ?i ?n] =>
      let E := fresh "E" in
      destruct (parse p i n) as [[? ?|? ?]|] eqn:E; [| |discriminate H];
      rewrite (Hp _ _ _ _ Hle E)
  end.

Section Approximation.

Context {A B : Type}.

Lemma approx_bottom (q : Parser A) : approx Parser.bottom q.
Proof. intros input n m r _ H. discriminate H. Qed.

Lemma monotone_pure (a : A) : monotone (Parser.pure a).
Proof. intros input n m r _ H. exact H. Qed.

Lemma monotone_empty : monotone (@Parser.empty A).
Proof. intros input n m r _ H. exact H. Qed.

Lemma approx_bind (p q : Parser A) (f g : A -> Parser B) :
  approx p q -> (forall a, approx (f a) (g a)) ->
  approx (Parser.bind p f) (Parser.bind q g).
Proof.
  intros Hp Hf input n m r Hle H. unfold_parsers.
  first_call Hp Hle H.
  - exact H.
  - exact (Hf _ _ _ _ _ Hle H).
Qed.

Lemma approx_fmap (p q : Parser A) (f : A -> B) :
  approx p q -> approx (Parser.fmap p f) (Parser.fmap q f).
Proof.
  intros Hp input n m r Hle H. unfold_parsers.
  first_call Hp Hle H; exact H.
Qed.

Lemma approx_parseIf `{ToString A} (p q : Parser A) (predicate : A -> bool)
    (description : string) :
  approx p q ->
  approx (Parser.parseIf p predicate description)
         (Parser.parseIf q predicate description).
Proof.
  intros Hp input n m r Hle H0. unfold_parsers.
  first_call Hp Hle H0; [exact H0|].
  destruct (predicate _); exact H0.
Qed.

Lemma approx_choice (p1 q1 p2 q2 : Parser A) :
  approx p1 q1 -> approx p2 q2 ->
  approx (Parser.choice p1 p2) (Parser.choice q1 q2).
Proof.
  intros H1 H2 input n m r Hle H. unfold_parsers.
  first_call H1 Hle H; cbn [isError] in *.
  - exact (H2 _ _ _ _ Hle H).
  - exact H.
Qed.

Lemma approx_lazyChoice (p1 q1 p2 q2 : Lazy (Parser A)) :
  approx (p1 tt) (q1 tt) -> approx (p2 tt) (q2 tt) ->
  approx (Parser.lazyChoice p1 p2) (Parser.lazyChoice q1 q2).
Proof.
  intros H1 H2 input n m r Hle H. unfold_parsers.
  first_call H1 Hle H; cbn [isError] in *.
  - exact (H2 _ _ _ _ Hle H).
  - exact H.
Qed.

Lemma approx_diag (P Q : nat -> Parser A) :
  (forall d d', (d <= d')%nat -> approx (P d) (Q d')) ->
  approx (diag P) (diag Q).
Proof.
  intros H input n m r Hle Hr. unfold_parsers.
  exact (H n m Hle _ _ _ _ Hle Hr).
Qed.

End Approximation.

Lemma many_upto_approx {A} (p q : Parser A) :
  approx p q ->
  forall d d', (d <= d')%nat ->
    approx (Parser.many_upto d p) (Parser.many_upto d' q).
Proof.
  intros Hp d. induction d as [|d IH]; intros d' Hle.
  - apply approx_bottom.
  - destruct d' as [|d']; [lia|]. cbn [Parser.many_upto].
    apply approx_choice; [|apply monotone_pure].
    apply approx_bind; [exact Hp|]. intro a.
    apply approx_bind; [apply IH; lia|]. intro l. apply monotone_pure.
Qed.

Lemma approx_many {A} (p q : Parser A) :
  approx p q -> approx (Parser.many p) (Parser.many q).
Proof.
  intro Hp. apply (approx_diag (fun d => Parser.many_upto d p)
                               (fun d => Parser.many_upto d q)).
  apply many_upto_approx. exact Hp.
Qed.

Lemma approx_some {A} (p q : Parser A) :
  approx p q -> approx (Parser.some p) (Parser.some q).
Proof.
  intro Hp. apply approx_bind; [exact Hp|]. intro a.
  apply approx_bind; [apply approx_many; exact Hp|]. intro l.
  apply monotone_pure.
Qed.

Lemma chainLeft_rest_approx {A} (p q : Parser A) (op oq : Parser (A -> A -> A)) :
  approx p q -> approx op oq ->
  forall d d' a, (d <= d')%nat ->
    approx (Parser.chainLeft_rest d p op a) (Parser.chainLeft_rest d' q oq a).
Proof.
  intros Hp Hop d. induction d as [|d IH]; intros d' a Hle.
  - apply approx_bottom.
  - destruct d' as [|d']; [lia|]. cbn [Parser.chainLeft_rest].
    apply approx_choice; [|apply monotone_pure].
    apply approx_bind; [exact Hop|]. intro f.
    apply approx_bind; [exact Hp|]. intro b. apply IH. lia.
Qed.

Lemma approx_chainLeft {A} (p q : Parser A) (op oq : Parser (A -> A -> A)) :
  approx p q -> approx op oq ->
  approx (Parser.chainLeft p op) (Parser.chainLeft q oq).
Proof.
  intros Hp Hop. apply approx_bind; [exact Hp|]. intro a.
  apply (approx_diag (fun d => Parser.chainLeft_rest d p op a)
                     (fun d => Parser.chainLeft_rest d q oq a)).
  intros d d' Hle. apply chainLeft_rest_approx; assumption.
Qed.

Lemma monotone_item : monotone item.
Proof.
  intros input n m r _ H. unfold item in *. cbn [parse] in *.
  destruct (getCharacterFromInput input) as [[character rest]|]; exact H.
Qed.

Lemma monotone_char (c : string) : monotone (char c).
Proof. apply approx_parseIf, monotone_item. Qed.

Lemma monotone_digit : monotone digit.
Proof. apply approx_parseIf, monotone_item. Qed.

Lemma monotone_whitespaces : monotone whitespaces.
Proof. apply approx_many, approx_parseIf, monotone_item. Qed.

Lemma monotone_str (s : string) : monotone (str s).
Proof.
  induction s as [|c s IH]; cbn [str].
  - apply monotone_pure.
  - apply approx_bind; [apply monotone_char|]. intro a.
    apply approx_bind; [exact IH|]. intro b. apply monotone_pure.
Qed.

Lemma approx_token {A} (p q : Parser A) : approx p q -> approx (token p) (token q).
Proof.
  intro Hp. apply approx_bind; [exact Hp|]. intro a.
  apply approx_bind; [apply monotone_whitespaces|]. intro l.
  apply monotone_pure.
Qed.

Lemma monotone_symbol (s : string) : monotone (symbol s).
Proof. apply approx_token, monotone_str. Qed.

(** ** Ordered choice *)

Section Choice.

Context {A : Type}.

Lemma choice_run (p1 p2 : Parser A) (s : State) (n : nat) :
  parse (Parser.choice p1 p2) s n =
  match parse p1 s n with
  | Some (ParserError _ _) => parse p2 s n
  | Some (ParserResult v rest) => Some (ParserResult v rest)
  | None => None
  end.
Proof.
  unfold_parsers. destruct (parse p1 s n) as [[pos msg|v rest]|]; reflexivity.
Qed.

(** C1: [choice(p1, p2).parse(s)] runs [p1] on [s].  If [p1] succeeds, its
    success is returned whatever [p2] is (also a [p2] that would never
    return): [p2] is not consulted.  If [p1] fails, the result is that of
    [p2] on the same state [s]; in particular, if [p2] fails too, the
    failure returned is the one of [p2]. *)
Theorem choice_ordered (p1 p2 : Parser A) (s : State) (n : nat) :
  (forall v rest,
      parse p1 s n = Some (ParserResult v rest) ->
      forall q, parse (Parser.choice p1 q) s n = Some (ParserResult v rest))
  /\ (forall pos1 msg1,
      parse p1 s n = Some (ParserError pos1 msg1) ->
      parse (Parser.choice p1 p2) s n = parse p2 s n)
  /\ (forall pos1 msg1 pos2 msg2,
      parse p1 s n = Some (ParserError pos1 msg1) ->
      parse p2 s n = Some (ParserError pos2 msg2) ->
      parse (Parser.choice p1 p2) s n = Some (ParserError pos2 msg2)).
Proof.
  split; [|split].
  - intros v rest H q. rewrite choice_run, H. reflexivity.
  - intros pos1 msg1 H. rewrite choice_run, H. reflexivity.
  - intros pos1 msg1 pos2 msg2 H1 H2. rewrite choice_run, H1. exact H2.
Qed.

End Choice.

(** [item] succeeds on ["a"], so the alternative, here a parser that never
    returns, is not run; on [""] both [item] and [digit] fail and the
    message is the one of [digit]. *)
Lemma choice_ordered_witness :
  parse (Parser.choice item Parser.bottom) (makeInput "a") 0
    = Some (ParserResult "a" {| position := {| line := 1; column := 2 |};
                                text := "" |})
  /\ parse (Parser.choice item digit) (makeInput "") 0
    = Some (ParserError {| line := 1; column := 1 |}
              "Expected a digit, but reach the end of input").
Proof.
  split.
  - apply (proj1 (choice_ordered item item (makeInput "a") 0) "a"
             {| position := {| line := 1; column := 2 |}; text := "" |}).
    reflexivity.
  - apply (proj2 (proj2 (choice_ordered item digit (makeInput "") 0))
             {| line := 1; column := 1 |} "Unexpected end of input").
    + reflexivity.
    + reflexivity.
Defined.

(** ** Monad laws *)

(** C3: left identity, right identity and associativity of [bind], for
    every input state (and every budget). *)
Theorem monad_laws {A B C : Type} (a : A) (f : A -> Parser B)
    (g : B -> Parser C) (p : Parser A) (s : State) (n : nat) :
  parse (Parser.bind (Parser.pure a) f) s n = parse (f a) s n
  /\ parse (Parser.bind p Parser.pure) s n = parse p s n
  /\ parse (Parser.bind (Parser.bind p f) g) s n
     = parse (Parser.bind p (fun x => Parser.bind (f x) g)) s n.
Proof.
  split; [|split]; unfold_parsers.
  - reflexivity.
  - destruct (parse p s n) as [[pos msg|v rest]|]; reflexivity.
  - destruct (parse p s n) as [[pos msg|v rest]|]; reflexivity.
Qed.

(** ** [item] *)

Lemma newline_test (c : ascii) :
  String.eqb (String c "") newline = Ascii.eqb c LF.
Proof.
  unfold newline. cbn [String.eqb]. fold LF.
  destruct (Ascii.eqb c LF); reflexivity.
Qed.

Lemma item_run (s : State) (n : nat) :
  parse item s n =
  match text s with
  | "" => Some (ParserError (position s) "Unexpected end of input")
  | String c rest =>
      Some (ParserResult (String c "")
              {| position := advanceChar (position s) c; text := rest |})
  end.
Proof.
  unfold item, getCharacterFromInput, advanceChar. cbn [parse].
  destruct (text s) as [|c rest]; [reflexivity|].
  rewrite newline_test. destruct (Ascii.eqb c LF); reflexivity.
Qed.

(** C4, as stated, fails on the empty input: the message of [item] is
    ["Unexpected end of input"], with a capital. *)
Lemma item_message_not_lowercase :
  parse item (makeInput "") 0
    <> Some (ParserError (position (makeInput ""))
               "unexpected end of input").
Proof. intro H. discriminate H. Qed.

(** C4, amended: on an empty remaining text [item] fails at the current
    position with the message ["Unexpected end of input"]; otherwise it
    succeeds with the first remaining character and a state whose text is
    the rest and whose position has the line incremented and the column
    reset to 1 when the character is a newline, and the column
    incremented and the line unchanged when it is not.  On
    [makeInput("a")] the value is ["a"] and the position line 1,
    column 2. *)
Theorem item_spec (s : State) (n : nat) :
  (text s = "" ->
     parse item s n
       = Some (ParserError (position s) "Unexpected end of input"))
  /\ (forall c rest, text s = String c rest ->
        exists st,
          parse item s n = Some (ParserResult (String c "") st)
          /\ text st = rest
          /\ (c = LF ->
                line (position st) = line (position s) + 1
                /\ column (position st) = 1)
          /\ (c <> LF ->
                line (position st) = line (position s)
                /\ column (position st) = column (position s) + 1))
  /\ parse item (makeInput "a") n
       = Some (ParserResult "a"
                 {| position := {| line := 1; column := 2 |}; text := "" |}).
Proof.
  split; [|split].
  - intro H. rewrite item_run, H. reflexivity.
  - intros c rest H. rewrite item_run, H. eexists. split; [reflexivity|].
    cbn [text position]. split; [reflexivity|]. unfold advanceChar. split.
    + intros ->. rewrite Ascii.eqb_refl. cbn. split; reflexivity.
    + intro Hc. destruct (Ascii.eqb_spec c LF) as [E|_]; [contradiction|].
      cbn. split; reflexivity.
  - reflexivity.
Qed.

Lemma item_spec_witness :
  parse item (makeInput "") 7
    = Some (ParserError {| line := 1; column := 1 |} "Unexpected end of input")
  /\ exists st,
       parse item {| position := {| line := 3; column := 5 |};
                     text := String LF "b" |} 7
         = Some (ParserResult (String LF "") st)
       /\ text st = "b"
       /\ line (position st) = 4 /\ column (position st) = 1.
Proof.
  split.
  - apply (proj1 (item_spec (makeInput "") 7)). reflexivity.
  - destruct (proj1 (proj2 (item_spec
                 {| position := {| line := 3; column := 5 |};
                    text := String LF "b" |} 7)) LF "b" eq_refl)
      as [st [Hrun [Htext [Hnl _]]]].
    exists st. split; [exact Hrun|]. split; [exact Htext|].
    exact (Hnl eq_refl).
Defined.

(** ** [parseIf] *)

Section ParseIf.

Context {A : Type} `{ToString A}.

Lemma parseIf_run (p : Parser A) (predicate : A -> bool)
    (description : string) (s : State) (n : nat) :
  parse (Parser.parseIf p predicate description) s n =
  match parse p s n with
  | Some (ParserError pos _) =>
      Some (ParserError pos
              ("Expected " ++ description ++ ", but reach the end of input"))
  | Some (ParserResult v rest) =>
      if predicate v then Some (ParserResult v rest)
      else Some (ParserError (position s)
                   ("Expected " ++ description ++ ", but got " ++ toString v))
  | None => None
  end.
Proof.
  unfold_parsers. destruct (parse p s n) as [[pos msg|v rest]|];
    try reflexivity.
  destruct (predicate v); reflexivity.
Qed.

(** C5: when [p] succeeds on [s] with a value that the predicate rejects,
    [p.parseIf(predicate, description)] fails at the position of [s], where
    the parse began, with a message built around the description; and when
    the underlying parser fails on a state whose input has ended, the
    message says that the description was expected and that the end of
    the input was reached. *)
Theorem parseIf_rejects (p : Parser A) (predicate : A -> bool)
    (description : string) (s : State) (n : nat) :
  (forall v rest,
      parse p s n = Some (ParserResult v rest) ->
      predicate v = false ->
      parse (Parser.parseIf p predicate description) s n
        = Some (ParserError (position s)
                  ("Expected " ++ description ++ ", but got " ++ toString v)))
  /\ (forall pos msg,
      text s = "" ->
      parse p s n = Some (ParserError pos msg) ->
      parse (Parser.parseIf p predicate description) s n
        = Some (ParserError pos
                  ("Expected " ++ description
                     ++ ", but reach the end of input"))).
Proof.
  split.
  - intros v rest Hp Hv. rewrite parseIf_run, Hp, Hv. reflexivity.
  - intros pos msg _ Hp. rewrite parseIf_run, Hp. reflexivity.
Qed.

(** C10: when [p] fails on [s], for whatever reason,
    [p.parseIf(predicate, description)] fails at the position of the
    failure of [p], and its message is ["Expected <description>, but reach
    the end of input"]: the message of [p] is dropped. *)
Theorem parseIf_rewrites_failure (p : Parser A) (predicate : A -> bool)
    (description : string) (s : State) (n : nat) (pos : Position)
    (msg : string) :
  parse p s n = Some (ParserError pos msg) ->
  parse (Parser.parseIf p predicate description) s n
    = Some (ParserError pos
              ("Expected " ++ description ++ ", but reach the end of input")).
Proof.
  intro Hp. rewrite parseIf_run, Hp. reflexivity.
Qed.

End ParseIf.

(** On ["0"] the digit is read and rejected: the failure is at line 1,
    column 1, where [nonZero] started, although [digit] stopped at
    column 2.  On [""] the failure of [item] is reworded by [char]. *)
Lemma parseIf_rejects_witness :
  parse nonZero (makeInput "0") 0
    = Some (ParserError {| line := 1; column := 1 |}
              "Expected a non-zero digit, but got 0")
  /\ parse (char "x") (makeInput "") 0
    = Some (ParserError {| line := 1; column := 1 |}
              "Expected x, but reach the end of input").
Proof.
  split.
  - refine (proj1 (parseIf_rejects digit (fun c => negb (String.eqb c "0"))
                     "a non-zero digit" (makeInput "0") 0) "0"
              {| position := {| line := 1; column := 2 |}; text := "" |} _ _);
      reflexivity.
  - refine (proj2 (parseIf_rejects item (fun c => String.eqb c "x") "x"
                     (makeInput "") 0)
              {| line := 1; column := 1 |} "Unexpected end of input" _ _);
      reflexivity.
Defined.

(** On ["x"] the input has not ended: [digit] fails with ["Expected a
    digit, but got x"], and [nonZero] reports the end of the input all the
    same. *)
Lemma parseIf_rewrites_failure_witness :
  parse digit (makeInput "x") 0
    = Some (ParserError {| line := 1; column := 1 |}
              "Expected a digit, but got x")
  /\ parse nonZero (makeInput "x") 0
    = Some (ParserError {| line := 1; column := 1 |}
              "Expected a non-zero digit, but reach the end of input").
Proof.
  split; [reflexivity|].
  refine (parseIf_rewrites_failure digit (fun c => negb (String.eqb c "0"))
            "a non-zero digit" (makeInput "x") 0
            (pos := {| line := 1; column := 1 |})
            (msg := "Expected a digit, but got x") _).
  reflexivity.
Defined.

(** ** [empty] and the choice over a list *)

(** C6, as stated, fails: [choice(p, empty)] is not [p] when [p] fails.
    On the empty input [item] fails with its own message and
    [choice(item, empty)] with the message of [empty]. *)
Lemma choice_empty_right_differs :
  parse (Parser.choice item Parser.empty) (makeInput "") 0
    <> parse item (makeInput "") 0.
Proof. intro H. discriminate H. Qed.

(** C6, amended: [empty] is a left identity of [choice]; on the right,
    [choice(p, empty)] agrees with [p] on every state where [p] does not
    fail, and where [p] fails it returns the failure of [empty] instead of
    the one of [p]; [empty] fails on every state, at the position of the
    state, with the message ["Empty parser"]. *)
Theorem empty_choice {A : Type} (p : Parser A) (s : State) (n : nat) :
  parse (Parser.choice Parser.empty p) s n = parse p s n
  /\ ((forall pos msg, parse p s n <> Some (ParserError pos msg)) ->
      parse (Parser.choice p Parser.empty) s n = parse p s n)
  /\ (forall pos msg,
      parse p s n = Some (ParserError pos msg) ->
      parse (Parser.choice p Parser.empty) s n
        = Some (ParserError (position s) "Empty parser"))
  /\ parse (@Parser.empty A) s n
     = Some (ParserError (position s) "Empty parser").
Proof.
  split; [|split; [|split]].
  - rewrite choice_run. reflexivity.
  - intro Hp. rewrite choice_run.
    destruct (parse p s n) as [[pos msg|v rest]|]; try reflexivity.
    destruct (Hp pos msg eq_refl).
  - intros pos msg Hp. rewrite choice_run, Hp. reflexivity.
  - reflexivity.
Qed.

Lemma empty_choice_witness :
  parse (Parser.choice item Parser.empty) (makeInput "a") 0
    = parse item (makeInput "a") 0
  /\ parse (Parser.choice item Parser.empty)
       {| position := {| line := 2; column := 7 |}; text := "" |} 0
     = Some (ParserError {| line := 2; column := 7 |} "Empty parser").
Proof.
  split.
  - apply (proj1 (proj2 (empty_choice item (makeInput "a") 0))).
    intros pos msg H. discriminate H.
  - refine (proj1 (proj2 (proj2 (empty_choice item
              {| position := {| line := 2; column := 7 |}; text := "" |} 0)))
              {| line := 2; column := 7 |} "Unexpected end of input" _).
    reflexivity.
Defined.

(** C9: with no alternative, [multipleChoice] and [multipleLazyChoice]
    return the constant [EMPTY_ERRROR], at line 1, column 1, whatever the
    position of the state; [empty] fails at the position of the state.
    On a state that is not at line 1, column 1 the two differ. *)
Theorem multipleChoice_nil {A : Type} (s : State) (n : nat) :
  parse (@Parser.multipleChoice A []) s n
    = Some (ParserError {| line := 1; column := 1 |} "Empty parser")
  /\ parse (@Parser.multipleLazyChoice A []) s n
    = Some (ParserError {| line := 1; column := 1 |} "Empty parser")
  /\ parse (@Parser.empty A) s n
    = Some (ParserError (position s) "Empty parser")
  /\ (position s <> {| line := 1; column := 1 |} ->
      parse (@Parser.multipleChoice A []) s n <> parse (@Parser.empty A) s n
      /\ parse (@Parser.multipleLazyChoice A []) s n
           <> parse (@Parser.empty A) s n).
Proof.
  repeat split; try reflexivity.
  - intro E. cbn in E. injection E as E. congruence.
  - intro E. cbn in E. injection E as E. congruence.
Qed.

Lemma multipleChoice_nil_witness :
  parse (@Parser.multipleChoice string [])
      {| position := {| line := 4; column := 2 |}; text := "rest" |} 0
    <> parse (@Parser.empty string)
      {| position := {| line := 4; column := 2 |}; text := "rest" |} 0.
Proof.
  apply (proj2 (proj2 (proj2 (multipleChoice_nil (A := string)
           {| position := {| line := 4; column := 2 |}; text := "rest" |} 0)))).
  intro H. discriminate H.
Defined.

(** ** Repetition *)

Lemma many_unfold {A : Type} (p : Parser A) (s : State) (n : nat) :
  parse (Parser.many p) s (S n) =
  match parse p s (S n) with
  | Some (ParserError _ _) => Some (ParserResult [] s)
  | Some (ParserResult a rest) =>
      match parse (Parser.many_upto n p) rest (S n) with
      | Some (ParserError _ _) => Some (ParserResult [] s)
      | Some (ParserResult l rest') => Some (ParserResult (a :: l) rest')
      | None => None
      end
  | None => None
  end.
Proof.
  unfold Parser.many. cbn [parse Parser.many_upto]. unfold_parsers.
  destruct (parse p s (S n)) as [[pos msg|a rest]|]; try reflexivity.
  destruct (parse (Parser.many_upto n p) rest (S n)) as [[pos msg|l rest']|];
    reflexivity.
Qed.

Lemma many_upto_success {A : Type} (p : Parser A) (d : nat) (s : State)
    (n : nat) (r : Result (list A)) :
  parse (Parser.many_upto d p) s n = Some r -> isError r = false.
Proof.
  destruct d as [|d]; cbn [Parser.many_upto]; [discriminate|].
  rewrite choice_run.
  destruct (parse (Parser.bind p _) s n) as [[pos msg|l rest]|];
    [|intro H; injection H as <-; reflexivity|discriminate].
  cbn. intro H; injection H as <-. reflexivity.
Qed.

(** C7: whenever [many(p).parse(s)] returns, it returns a success; when
    the first application of [p] fails, the success carries the empty list
    and the state [s] itself.  [many(digit)] on ["123a"] returns (with any
    budget of at least 4 nested calls) the digits ['1','2','3'] and the
    state at line 1, column 4 whose remaining text is ["a"]. *)
Theorem many_never_fails :
  (forall (A : Type) (p : Parser A) (s : State) (n : nat)
          (r : Result (list A)),
      parse (Parser.many p) s n = Some r -> isError r = false)
  /\ (forall (A : Type) (p : Parser A) (s : State) (n : nat) pos msg,
      parse p s (S n) = Some (ParserError pos msg) ->
      parse (Parser.many p) s (S n) = Some (ParserResult [] s))
  /\ (forall n, (4 <= n)%nat ->
      parse (Parser.many digit) (makeInput "123a") n
        = Some (ParserResult ["1"; "2"; "3"]
                  {| position := {| line := 1; column := 4 |};
                     text := "a" |})).
Proof.
  split; [|split].
  - intros A p s n r H. exact (many_upto_success p n s n H).
  - intros A p s n pos msg H. rewrite many_unfold, H. reflexivity.
  - intros n Hn.
    apply (approx_many monotone_digit (makeInput "123a") (n := 4%nat) Hn).
    vm_compute. reflexivity.
Qed.

Lemma many_never_fails_witness :
  isError (ParserResult ["1"; "2"; "3"]
             {| position := {| line := 1; column := 4 |}; text := "a" |})
    = false
  /\ parse (Parser.many digit) (makeInput "a") 1
     = Some (ParserResult [] (makeInput "a"))
  /\ parse (Parser.many digit) (makeInput "123a") 9
     = Some (ParserResult ["1"; "2"; "3"]
               {| position := {| line := 1; column := 4 |}; text := "a" |}).
Proof.
  split; [|split].
  - apply (proj1 many_never_fails string digit (makeInput "123a") 4%nat).
    vm_compute. reflexivity.
  - refine (proj1 (proj2 many_never_fails) string digit (makeInput "a") 0%nat
              {| line := 1; column := 1 |} "Expected a digit, but got a" _).
    reflexivity.
  - apply (proj2 (proj2 many_never_fails) 9%nat). lia.
Defined.

(** The hazard of the repetition: on a parser that succeeds without
    consuming, [many] never returns. *)
Lemma many_pure_loops {A : Type} (a : A) (s : State) (n : nat) :
  parse (Parser.many (Parser.pure a)) s n = None.
Proof.
  unfold Parser.many. cbn [parse]. generalize n at 2. intro m.
  induction n as [|n IH]; [reflexivity|].
  cbn [Parser.many_upto]. rewrite choice_run. unfold_parsers.
  rewrite IH. reflexivity.
Qed.

(** ** Literal strings *)

Lemma char_run (c0 : ascii) (s : State) (n : nat) :
  parse (char (String c0 "")) s n =
  match text s with
  | "" =>
      Some (ParserError (position s)
              ("Expected " ++ String c0 "" ++ ", but reach the end of input"))
  | String d rest =>
      if Ascii.eqb d c0
      then Some (ParserResult (String d "")
                   {| position := advanceChar (position s) d; text := rest |})
      else Some (ParserError (position s)
                   ("Expected " ++ String c0 "" ++ ", but got " ++ String d ""))
  end.
Proof.
  unfold char. rewrite parseIf_run, item_run.
  destruct (text s) as [|d rest]; [reflexivity|].
  cbn [String.eqb]. destruct (Ascii.eqb d c0); reflexivity.
Qed.

Lemma str_cons_run (c0 : ascii) (s' : string) (s : State) (n : nat) :
  parse (str (String c0 s')) s n =
  match parse (char (String c0 "")) s n with
  | Some (ParserError pos msg) => Some (ParserError pos msg)
  | Some (ParserResult c rest) =>
      match parse (str s') rest n with
      | Some (ParserError pos msg) => Some (ParserError pos msg)
      | Some (ParserResult cs rest') => Some (ParserResult (c ++ cs) rest')
      | None => None
      end
  | None => None
  end.
Proof.
  cbn [str]. unfold_parsers.
  destruct (parse (char (String c0 "")) s n) as [[pos msg|c rest]|];
    try reflexivity.
  destruct (parse (str s') rest n) as [[pos msg|cs rest']|]; reflexivity.
Qed.

(** After a matched prefix [pre], [str (pre ++ s2)] goes on as [str s2]
    from the state advanced over [pre]. *)
Lemma str_app_run (pre s2 t : string) (pos : Position) (n : nat) :
  parse (str (pre ++ s2)) {| position := pos; text := pre ++ t |} n =
  match parse (str s2) {| position := advance pos pre; text := t |} n with
  | Some (ParserError p msg) => Some (ParserError p msg)
  | Some (ParserResult v st) => Some (ParserResult (pre ++ v) st)
  | None => None
  end.
Proof.
  revert pos. induction pre as [|c pre IH]; intro pos.
  - cbn [append advance].
    destruct (parse (str s2) _ n) as [[p msg|v st]|]; reflexivity.
  - cbn [append advance]. rewrite str_cons_run, char_run. cbn [text position].
    rewrite Ascii.eqb_refl, IH.
    destruct (parse (str s2) _ n) as [[p msg|v st]|]; reflexivity.
Qed.

Lemma append_nil_r (s : string) : s ++ "" = s.
Proof. induction s as [|c s IH]; cbn; [reflexivity|]. rewrite IH. reflexivity. Qed.

(** How a text [t] compares with a literal [s]: [s] is a prefix of [t], or
    they part at a first differing character, or [t] ends inside [s]. *)
Lemma prefix_cases (s t : string) :
  (exists rest, t = s ++ rest)
  \/ (exists pre c s' d rest,
        s = pre ++ String c s' /\ t = pre ++ String d rest /\ c <> d)
  \/ (exists pre c s', s = pre ++ String c s' /\ t = pre).
Proof.
  revert t. induction s as [|c s IH]; intro t.
  - left. exists t. reflexivity.
  - destruct t as [|d t].
    + right. right. exists "", c, s. split; reflexivity.
    + destruct (Ascii.eqb_spec c d) as [<-|Hcd].
      * destruct (IH t) as [[rest ->]|[(pre & c' & s' & d' & rest & -> & -> & Hc)
                                      |(pre & c' & s' & -> & ->)]].
        -- left. exists rest. reflexivity.
        -- right. left. exists (String c pre), c', s', d', rest.
           split; [reflexivity|]. split; [reflexivity|exact Hc].
        -- right. right. exists (String c pre), c', s'. split; reflexivity.
      * right. left. exists "", c, s, d, t.
        split; [reflexivity|]. split; [reflexivity|exact Hcd].
Qed.

(** The line never decreases, and the column counts the characters read
    as long as the line has not changed. *)
Lemma advance_line_column (s : string) (pos : Position) :
  line pos <= line (advance pos s)
  /\ (line (advance pos s) = line pos ->
      column (advance pos s) = column pos + Z.of_nat (String.length s)).
Proof.
  revert pos. induction s as [|c s IH]; intro pos.
  - cbn. split; [lia|]. intros _. lia.
  - cbn [advance String.length]. destruct (IH (advanceChar pos c)) as [Hl Hc].
    unfold advanceChar in *. destruct (Ascii.eqb c LF); cbn [line column] in *.
    + split; [lia|]. intro E. lia.
    + split; [exact Hl|]. intro E. rewrite (Hc E). lia.
Qed.

Lemma advance_moves (s : string) (pos : Position) :
  s <> "" -> advance pos s <> pos.
Proof.
  intros Hs E. destruct (advance_line_column s pos) as [_ Hc].
  rewrite E in Hc. specialize (Hc eq_refl).
  destruct s as [|c s]; [contradiction|]. cbn [String.length] in Hc. lia.
Qed.

Lemma state_eta (s : State) : {| position := position s; text := text s |} = s.
Proof. destruct s; reflexivity. Qed.

(** C8: [str(s)] succeeds exactly when the remaining text begins with
    [s]; it then returns [s] and the state advanced over the characters of
    [s], with the rest of the text.  [str("")] succeeds on every state and
    returns the state itself.  When the text agrees with [s] on a prefix
    [pre] and then has a character other than the next one of [s], the
    failure is at the position of that character, which is not the
    position where [str(s)] started unless [pre] is empty. *)
Theorem str_spec (s : string) (input : State) (n : nat) :
  (forall rest, text input = s ++ rest ->
      parse (str s) input n
        = Some (ParserResult s {| position := advance (position input) s;
                                  text := rest |}))
  /\ (forall v st, parse (str s) input n = Some (ParserResult v st) ->
      exists rest, text input = s ++ rest)
  /\ parse (str "") input n = Some (ParserResult "" input)
  /\ (forall pre c s' d rest,
      s = pre ++ String c s' ->
      text input = pre ++ String d rest ->
      c <> d ->
      parse (str s) input n
        = Some (ParserError (advance (position input) pre)
                  ("Expected " ++ String c "" ++ ", but got " ++ String d ""))
      /\ (pre <> "" -> advance (position input) pre <> position input)).
Proof.
  assert (Hmis : forall pre c s' d rest,
    s = pre ++ String c s' -> text input = pre ++ String d rest -> c <> d ->
    parse (str s) input n
      = Some (ParserError (advance (position input) pre)
                ("Expected " ++ String c "" ++ ", but got " ++ String d ""))).
  { intros pre c s' d rest -> Ht Hcd. rewrite <- (state_eta input), Ht.
    cbn [position]. rewrite str_app_run, str_cons_run, char_run.
    cbn [text position].
    destruct (Ascii.eqb_spec d c) as [->|_]; [contradiction Hcd; reflexivity|].
    reflexivity. }
  assert (Heof : forall pre c s',
    s = pre ++ String c s' -> text input = pre ->
    parse (str s) input n
      = Some (ParserError (advance (position input) pre)
                ("Expected " ++ String c ""
                   ++ ", but reach the end of input"))).
  { intros pre c s' -> Ht. rewrite <- (state_eta input), Ht. cbn [position].
    rewrite <- (append_nil_r pre) at 2.
    rewrite str_app_run, str_cons_run, char_run. reflexivity. }
  split; [|split; [|split]].
  - intros rest Ht. rewrite <- (state_eta input), Ht. cbn [position].
    rewrite <- (append_nil_r s) at 1. rewrite str_app_run. cbn [str].
    unfold_parsers. rewrite append_nil_r. reflexivity.
  - intros v st Hrun.
    destruct (prefix_cases s (text input))
      as [Hpre|[(pre & c & s' & d & rest & Hs & Ht & Hcd)
               |(pre & c & s' & Hs & Ht)]].
    + exact Hpre.
    + rewrite (Hmis _ _ _ _ _ Hs Ht Hcd) in Hrun. discriminate Hrun.
    + rewrite (Heof _ _ _ Hs Ht) in Hrun. discriminate Hrun.
  - reflexivity.
  - intros pre c s' d rest Hs Ht Hcd. split.
    + exact (Hmis _ _ _ _ _ Hs Ht Hcd).
    + apply advance_moves.
Qed.

Lemma str_spec_witness :
  parse (str "null") (makeInput "null!") 0
    = Some (ParserResult "null"
              {| position := {| line := 1; column := 5 |}; text := "!" |})
  /\ parse (str "null") (makeInput "nuxl") 0
     = Some (ParserError {| line := 1; column := 3 |} "Expected l, but got x")
  /\ {| line := 1; column := 3 |} <> {| line := 1; column := 1 |}.
Proof.
  split; [|split].
  - apply (proj1 (str_spec "null" (makeInput "null!") 0) "!"). reflexivity.
  - refine (proj1 (proj2 (proj2 (proj2 (str_spec "null" (makeInput "nuxl") 0)))
                     "nu" "l"%char "l" "x"%char "l" _ _ _)).
    + reflexivity.
    + reflexivity.
    + intro H. discriminate H.
  - refine (proj2 (proj2 (proj2 (proj2 (str_spec "null" (makeInput "nuxl") 0)))
                     "nu" "l"%char "l" "x"%char "l" _ _ _) _).
    + reflexivity.
    + reflexivity.
    + intro H. discriminate H.
    + intro H. discriminate H.
Defined.

(** ** The arithmetic grammar *)

Lemma monotone_operator (op : Math.Operator) : monotone (Math.operator op).
Proof. apply approx_fmap, monotone_symbol. Qed.

Lemma monotone_plusMinus : monotone Math.plusMinus.
Proof. apply approx_choice; apply monotone_operator. Qed.

Lemma monotone_mulDiv : monotone Math.mulDiv.
Proof. apply approx_choice; apply monotone_operator. Qed.

Lemma monotone_intString : monotone Math.intString.
Proof. apply approx_some, monotone_digit. Qed.

Lemma monotone_realString : monotone Math.realString.
Proof.
  apply approx_bind; [apply monotone_intString|]. intro ds.
  apply approx_bind; [apply monotone_char|]. intro c.
  apply approx_bind; [apply monotone_intString|]. intro rs.
  apply monotone_pure.
Qed.

Lemma monotone_numeric : monotone Math.numeric.
Proof.
  apply approx_fmap, approx_bind.
  - apply approx_token, approx_choice;
      [apply monotone_realString|apply monotone_intString].
  - intro s. apply monotone_pure.
Qed.

Lemma approx_lazyFactor (e1 e2 : Lazy (Parser Math.Expression)) :
  approx (e1 tt) (e2 tt) ->
  approx (Math.lazyFactor_of e1 tt) (Math.lazyFactor_of e2 tt).
Proof.
  intro He. apply approx_lazyChoice; [apply monotone_numeric|].
  apply approx_bind; [apply monotone_symbol|]. intro o.
  apply approx_bind; [exact He|]. intro e.
  apply approx_bind; [apply monotone_symbol|]. intro c.
  apply monotone_pure.
Qed.

Lemma approx_lazyTerm (e1 e2 : Lazy (Parser Math.Expression)) :
  approx (e1 tt) (e2 tt) ->
  approx (Math.lazyTerm_of e1 tt) (Math.lazyTerm_of e2 tt).
Proof.
  intro He. apply approx_chainLeft;
    [apply approx_lazyFactor; exact He|apply monotone_mulDiv].
Qed.

Lemma lazyExpr_upto_approx (d d' : nat) :
  (d <= d')%nat ->
  approx (Math.lazyExpr_upto d tt) (Math.lazyExpr_upto d' tt).
Proof.
  revert d'. induction d as [|d IH]; intros d' Hle.
  - apply approx_bottom.
  - destruct d' as [|d']; [lia|]. cbn [Math.lazyExpr_upto].
    apply approx_chainLeft; [|apply monotone_plusMinus].
    apply approx_lazyTerm, IH. lia.
Qed.

Lemma monotone_expr : monotone Math.expr.
Proof.
  apply (approx_diag (fun d => Math.lazyExpr_upto d tt)
                     (fun d => Math.lazyExpr_upto d tt)).
  exact lazyExpr_upto_approx.
Qed.

(** C2: the expression parser returns on ["4 - 2 + 3"] (with any budget of
    at least 3 nested calls), having read the whole input, the tree
    [(4 - 2) + 3], which is not [4 - (2 + 3)]; evaluating it with the
    [Operation] of each node gives [5], where the other tree would give
    [-1]. *)
Theorem expr_left_associative (n : nat) :
  (3 <= n)%nat ->
  parse Math.expr (makeInput "4 - 2 + 3") n
    = Some (ParserResult tree_left
              {| position := {| line := 1; column := 10 |}; text := "" |})
  /\ tree_left <> tree_right
  /\ Math.evaluate tree_left = 5%float
  /\ Math.evaluate tree_right = (-1)%float.
Proof.
  intro Hn. split; [|split; [|split]].
  - apply (monotone_expr (makeInput "4 - 2 + 3") (n := 3%nat) Hn).
    vm_compute. reflexivity.
  - intro H. discriminate H.
  - vm_compute. reflexivity.
  - vm_compute. reflexivity.
Qed.

Lemma expr_left_associative_witness :
  parse Math.expr (makeInput "4 - 2 + 3") 6
    = Some (ParserResult tree_left
              {| position := {| line := 1; column := 10 |}; text := "" |})
  /\ Math.evaluate tree_left = 5%float.
Proof.
  destruct (expr_left_associative (n := 6)) as [Hrun [_ [Hval _]]].
  - lia.
  - split; [exact Hrun|exact Hval].
Defined.

(** * Further properties of the combinators *)

(** ** [fmap] and [apply] *)

(** X1: [fmap] is a functor on parsers, and is [bind] followed by [pure]:
    mapping the identity changes nothing, mapping [f] then [g] is mapping
    their composition, and [p.fmap(f)] runs as
    [p.bind(a => pure(f(a)))]. *)
Theorem fmap_functor {A B C : Type} (p : Parser A) (f : A -> B) (g : B -> C)
    (s : State) (n : nat) :
  parse (Parser.fmap p (fun a => a)) s n = parse p s n
  /\ parse (Parser.fmap (Parser.fmap p f) g) s n
     = parse (Parser.fmap p (fun a => g (f a))) s n
  /\ parse (Parser.fmap p f) s n
     = parse (Parser.bind p (fun a => Parser.pure (f a))) s n.
Proof.
  unfold_parsers.
  destruct (parse p s n) as [[pos msg|v rest]|]; repeat split.
Qed.

(** X2: [this.apply(fp)] runs [fp] first and [this] on the state [fp]
    leaves, and applies the function to the value:
    it runs as [fp.bind(f => this.bind(a => pure(f(a))))].  A failure of
    [fp] is returned without running [this]. *)
Theorem apply_as_bind {A B : Type} (p : Parser A) (fp : Parser (A -> B))
    (s : State) (n : nat) :
  parse (Parser.apply p fp) s n
    = parse (Parser.bind fp (fun f =>
               Parser.bind p (fun a => Parser.pure (f a)))) s n
  /\ (forall pos msg q,
      parse fp s n = Some (ParserError pos msg) ->
      parse (Parser.apply q fp) s n = Some (ParserError pos msg)).
Proof.
  split.
  - unfold Parser.apply. unfold_parsers.
    destruct (parse fp s n) as [[pos msg|f rest]|]; reflexivity.
  - intros pos msg q H. unfold Parser.apply. cbn [parse]. unfold andThen.
    rewrite H. reflexivity.
Qed.

Lemma apply_as_bind_witness :
  parse (Parser.apply (@Parser.bottom string)
           (Parser.fmap digit (fun d c => (d ++ c)%string)))
      (makeInput "x") 0
    = Some (ParserError {| line := 1; column := 1 |}
              "Expected a digit, but got x").
Proof.
  refine (proj2 (apply_as_bind item
                   (Parser.fmap digit (fun d c => (d ++ c)%string))
                   (makeInput "x") 0)
            {| line := 1; column := 1 |} "Expected a digit, but got x"
            Parser.bottom _).
  reflexivity.
Defined.

(** ** The choice over a list *)

Lemma multipleChoice_loop_cons {A : Type} (p : Parser A) (ps : list (Parser A))
    (s : State) (r0 : Result A) (n : nat) :
  Parser.multipleChoice_loop (p :: ps) s r0 n = parse (choiceList p ps) s n.
Proof.
  revert p r0. induction ps as [|q qs IH]; intros p r0.
  - cbn [Parser.multipleChoice_loop choiceList]. unfold andThen, ret.
    destruct (parse p s n) as [[pos msg|v rest]|]; reflexivity.
  - cbn [choiceList]. rewrite choice_run, <- (IH q (ParserError {| line := 1; column := 1 |} "")).
    change (Parser.multipleChoice_loop (p :: q :: qs) s r0 n)
      with (andThen (parse p s)
              (fun r => if negb (isError r) then ret r
                        else Parser.multipleChoice_loop (q :: qs) s r) n).
    unfold andThen, ret.
    destruct (parse p s n) as [[pos msg|v rest]|]; reflexivity.
Qed.

(** X3: on a non-empty list [multipleChoice] is [choice] applied from
    left to right: [multipleChoice(p, q, ..., z)] runs as
    [choice(p, choice(q, ... z))], and [multipleChoice(p)] as [p]. *)
Theorem multipleChoice_as_choice {A : Type} (p : Parser A)
    (ps : list (Parser A)) (s : State) (n : nat) :
  parse (Parser.multipleChoice (p :: ps)) s n = parse (choiceList p ps) s n.
Proof.
  unfold Parser.multipleChoice. cbn [parse]. apply multipleChoice_loop_cons.
Qed.

Lemma multipleChoice_skip {A : Type} (pre : list (Parser A))
    (post : list (Parser A)) (s : State) (n : nat) (r0 : Result A) :
  Forall (fun q => failsAt q s n) pre ->
  post <> [] ->
  Parser.multipleChoice_loop (pre ++ post) s r0 n
    = Parser.multipleChoice_loop post s r0 n.
Proof.
  intros Hpre Hpost. revert r0. induction Hpre as [|q pre [pos [msg Hq]] _ IH];
    intro r0; [reflexivity|].
  cbn [app Parser.multipleChoice_loop]. unfold andThen. rewrite Hq.
  cbn [isError negb]. rewrite IH.
  destruct post as [|p post]; [contradiction|].
  rewrite !multipleChoice_loop_cons. reflexivity.
Qed.

(** X4: [multipleChoice] returns the success of the first alternative
    that succeeds, once the ones before it have failed, whatever the
    alternatives after it are; and when all alternatives fail, the
    failure of the last one. *)
Theorem multipleChoice_first_success {A : Type} (pre : list (Parser A))
    (p : Parser A) (s : State) (n : nat) :
  Forall (fun q => failsAt q s n) pre ->
  (forall v st post,
      parse p s n = Some (ParserResult v st) ->
      parse (Parser.multipleChoice (pre ++ p :: post)) s n
        = Some (ParserResult v st))
  /\ (forall pos msg,
      parse p s n = Some (ParserError pos msg) ->
      parse (Parser.multipleChoice (pre ++ [p])) s n
        = Some (ParserError pos msg)).
Proof.
  intro Hpre. split.
  - intros v st post Hp. unfold Parser.multipleChoice. cbn [parse].
    rewrite multipleChoice_skip by (assumption || discriminate).
    cbn [Parser.multipleChoice_loop]. unfold andThen. rewrite Hp. reflexivity.
  - intros pos msg Hp. unfold Parser.multipleChoice. cbn [parse].
    rewrite multipleChoice_skip by (assumption || discriminate).
    cbn [Parser.multipleChoice_loop]. unfold andThen. rewrite Hp. reflexivity.
Qed.

Lemma multipleChoice_first_success_witness :
  parse (Parser.multipleChoice [char "+"; char "-"; Json.none; Parser.bottom])
      (makeInput "7") 0
    = Some (ParserResult "" (makeInput "7"))
  /\ parse (Parser.multipleChoice [char "+"; char "-"]) (makeInput "7") 0
    = Some (ParserError {| line := 1; column := 1 |} "Expected -, but got 7").
Proof.
  split.
  - refine (proj1 (@multipleChoice_first_success string [char "+"; char "-"]
                     Json.none (makeInput "7") 0 _) "" (makeInput "7")
              [Parser.bottom] _).
    + repeat constructor.
      * exists {| line := 1; column := 1 |}, "Expected +, but got 7".
        reflexivity.
      * exists {| line := 1; column := 1 |}, "Expected -, but got 7".
        reflexivity.
    + reflexivity.
  - refine (proj2 (@multipleChoice_first_success string [char "+"]
                     (char "-") (makeInput "7") 0 _)
              {| line := 1; column := 1 |} "Expected -, but got 7" _).
    + repeat constructor.
      exists {| line := 1; column := 1 |}, "Expected +, but got 7".
      reflexivity.
    + reflexivity.
Defined.

(** X5: [multipleLazyChoice] is [multipleChoice] on the parsers its
    thunks return. *)
Theorem multipleLazyChoice_forces {A : Type} (ps : list (Lazy (Parser A)))
    (s : State) (n : nat) :
  parse (Parser.multipleLazyChoice ps) s n
    = parse (Parser.multipleChoice (map (fun p => p tt) ps)) s n.
Proof.
  unfold Parser.multipleLazyChoice, Parser.multipleChoice. cbn [parse].
  generalize (@Parser.EMPTY_ERRROR A). induction ps as [|p ps IH]; intro r0.
  - reflexivity.
  - cbn [map Parser.multipleLazyChoice_loop Parser.multipleChoice_loop].
    unfold andThen.
    destruct (parse (p tt) s n) as [[pos msg|v rest]|]; cbn [isError negb];
      try reflexivity.
    apply IH.
Qed.

(** ** Repetition, run by run *)

Lemma bind_run {A B : Type} (p : Parser A) (f : A -> Parser B) (s : State)
    (n : nat) :
  parse (Parser.bind p f) s n =
  match parse p s n with
  | Some (ParserError pos msg) => Some (ParserError pos msg)
  | Some (ParserResult v rest) => parse (f v) rest n
  | None => None
  end.
Proof.
  unfold_parsers. destruct (parse p s n) as [[pos msg|v rest]|]; reflexivity.
Qed.

Lemma many_upto_step {A : Type} (p : Parser A) (d : nat) (s : State)
    (n : nat) :
  parse (Parser.many_upto (S d) p) s n =
  match parse p s n with
  | Some (ParserError _ _) => Some (ParserResult [] s)
  | Some (ParserResult a rest) =>
      match parse (Parser.many_upto d p) rest n with
      | Some (ParserError _ _) => Some (ParserResult [] s)
      | Some (ParserResult l rest') => Some (ParserResult (a :: l) rest')
      | None => None
      end
  | None => None
  end.
Proof.
  cbn [Parser.many_upto]. rewrite choice_run, bind_run.
  destruct (parse p s n) as [[pos msg|a rest]|]; try reflexivity.
  rewrite bind_run.
  destruct (parse (Parser.many_upto d p) rest n) as [[pos msg|l rest']|];
    reflexivity.
Qed.

Lemma many_upto_collects {A : Type} (p : Parser A) (n : nat) (s : State)
    (l : list A) (s' : State) :
  runs p n s l s' -> failsAt p s' n ->
  forall d, (List.length l < d)%nat ->
    parse (Parser.many_upto d p) s n = Some (ParserResult l s').
Proof.
  intros Hruns [pos [msg Hstop]].
  induction Hruns as [s|s a s1 l s' Ha _ IH]; intros d Hd.
  - destruct d as [|d]; [inversion Hd|]. rewrite many_upto_step, Hstop.
    reflexivity.
  - destruct d as [|d]; [inversion Hd|]. cbn [List.length] in Hd.
    rewrite many_upto_step, Ha, (IH Hstop d) by lia. reflexivity.
Qed.

Lemma many_run_collects {A : Type} (p : Parser A) (n : nat) (s : State)
    (l : list A) (s' : State) :
  runs p n s l s' -> failsAt p s' n -> (List.length l < n)%nat ->
  parse (Parser.many p) s n = Some (ParserResult l s').
Proof.
  intros Hruns Hstop Hn. unfold Parser.many. cbn [parse].
  exact (many_upto_collects Hruns Hstop Hn).
Qed.

(** X6: [many(p)] returns the values of the successive runs of [p], in
    order, up to the first run that fails, and the state on which that
    run failed: what the failing run read is given back.  The budget must
    exceed the number of runs. *)
Theorem many_collects {A : Type} (p : Parser A) (n : nat) (s : State)
    (l : list A) (s' : State) :
  runs p n s l s' -> failsAt p s' n -> (List.length l < n)%nat ->
  parse (Parser.many p) s n = Some (ParserResult l s').
Proof.
  apply many_run_collects.
Qed.

Lemma many_collects_witness :
  parse (Parser.many (str "ab")) (makeInput "ababac") 3
    = Some (ParserResult ["ab"; "ab"]
              {| position := {| line := 1; column := 5 |}; text := "ac" |}).
Proof.
  apply many_collects.
  - apply runs_cons
      with (s1 := {| position := {| line := 1; column := 3 |};
                     text := "abac" |}); [reflexivity|].
    apply runs_cons
      with (s1 := {| position := {| line := 1; column := 5 |};
                     text := "ac" |}); [reflexivity|].
    apply runs_nil.
  - exists {| line := 1; column := 6 |}, "Expected b, but got c". reflexivity.
  - cbn. lia.
Defined.

(** X7: [some(p)] fails exactly when the first run of [p] fails, with the
    failure of [p]; a success of [some(p)] carries a non-empty list that
    begins with the value of that first run. *)
Theorem some_spec {A : Type} (p : Parser A) (s : State) (n : nat) :
  (forall pos msg,
      parse p s n = Some (ParserError pos msg) <->
      parse (Parser.some p) s n = Some (ParserError pos msg))
  /\ (forall l st,
      parse (Parser.some p) s n = Some (ParserResult l st) ->
      exists a l' rest,
        parse p s n = Some (ParserResult a rest) /\ l = a :: l').
Proof.
  unfold Parser.some. split.
  - intros pos msg. rewrite bind_run.
    destruct (parse p s n) as [[pos1 msg1|a rest]|];
      [split; intro H; injection H as -> ->; reflexivity|
       |split; intro H; discriminate H].
    rewrite bind_run. cbn [parse Parser.many].
    destruct (parse (Parser.many_upto n p) rest n) as [[pos2 msg2|l st]|] eqn:E.
    + apply many_upto_success in E. discriminate E.
    + cbn. split; intro H; discriminate H.
    + split; intro H; discriminate H.
  - intros l st. rewrite bind_run.
    destruct (parse p s n) as [[pos1 msg1|a rest]|]; try discriminate.
    rewrite bind_run.
    destruct (parse (Parser.many p) rest n) as [[pos2 msg2|l' st']|];
      try discriminate.
    cbn. intro H. injection H as <- <-. exists a, l', rest.
    split; reflexivity.
Qed.

Lemma some_spec_witness :
  parse (Parser.some digit) (makeInput "x1") 5
    = Some (ParserError {| line := 1; column := 1 |}
              "Expected a digit, but got x").
Proof.
  apply (proj1 (proj1 (some_spec digit (makeInput "x1") 5)
                  {| line := 1; column := 1 |} "Expected a digit, but got x")).
  reflexivity.
Defined.

Lemma many_upto_terminates {A : Type} (p : Parser A) :
  returns p -> consuming p ->
  forall d s n, (String.length (text s) < d)%nat ->
    exists l st,
      parse (Parser.many_upto d p) s n = Some (ParserResult l st)
      /\ runs p n s l st /\ failsAt p st n.
Proof.
  intros Hret Hcons d. induction d as [|d IH]; intros s n Hd; [inversion Hd|].
  rewrite many_upto_step.
  destruct (parse p s n) as [[pos msg|a rest]|] eqn:Ep.
  - exists [], s. split; [reflexivity|]. split; [apply runs_nil|].
    exists pos, msg. exact Ep.
  - pose proof (Hcons _ _ _ _ Ep) as Hlt.
    destruct (IH rest n) as (l & st & -> & Hruns & Hstop); [lia|].
    exists (a :: l), st. split; [reflexivity|]. split; [|exact Hstop].
    exact (runs_cons _ Ep Hruns).
  - destruct (Hret _ _ Ep).
Qed.

(** X8: on a parser that always returns and whose every success shortens
    the remaining text, [many] returns as soon as the budget exceeds the
    length of the text: a success with the values of the successive runs
    of the parser, at a state on which the parser fails. *)
Theorem many_terminates {A : Type} (p : Parser A) (s : State) (n : nat) :
  returns p -> consuming p -> (String.length (text s) < n)%nat ->
  exists l st,
    parse (Parser.many p) s n = Some (ParserResult l st)
    /\ runs p n s l st /\ failsAt p st n.
Proof.
  intros Hret Hcons Hn. unfold Parser.many. cbn [parse].
  exact (many_upto_terminates Hret Hcons s n Hn).
Qed.

(** ** Character classes *)

Lemma class_run (pr : string -> bool) (desc : string) (s : State) (n : nat) :
  parse (Parser.parseIf item pr desc) s n =
  match text s with
  | "" =>
      Some (ParserError (position s)
              ("Expected " ++ desc ++ ", but reach the end of input"))
  | String c rest =>
      if pr (single c)
      then Some (ParserResult (single c)
                   {| position := advanceChar (position s) c; text := rest |})
      else Some (ParserError (position s)
                   ("Expected " ++ desc ++ ", but got " ++ single c))
  end.
Proof.
  rewrite parseIf_run, item_run. destruct (text s) as [|c rest]; reflexivity.
Qed.

Lemma returns_class (pr : string -> bool) (desc : string) :
  returns (Parser.parseIf item pr desc).
Proof.
  intros s n. rewrite class_run. destruct (text s) as [|c rest]; [discriminate|].
  destruct (pr (single c)); discriminate.
Qed.

Lemma consuming_class (pr : string -> bool) (desc : string) :
  consuming (Parser.parseIf item pr desc).
Proof.
  intros s n a st. rewrite class_run. destruct (text s) as [|c rest];
    [discriminate|].
  destruct (pr (single c)); [|discriminate].
  intro H. injection H as <- <-. cbn. lia.
Qed.

Lemma many_terminates_witness :
  exists l st,
    parse (Parser.many digit) (makeInput "12a") 4 = Some (ParserResult l st)
    /\ runs digit 4 (makeInput "12a") l st /\ failsAt digit st 4.
Proof.
  apply many_terminates.
  - apply returns_class.
  - apply consuming_class.
  - cbn. lia.
Defined.

Lemma class_runs (pr : string -> bool) (desc : string) (pre rest : string)
    (pos : Position) (n : nat) :
  allChars pr pre = true ->
  runs (Parser.parseIf item pr desc) n
    {| position := pos; text := pre ++ rest |}
    (chars pre)
    {| position := advance pos pre; text := rest |}.
Proof.
  revert pos. induction pre as [|c pre IH]; intros pos Hall.
  - apply runs_nil.
  - cbn [allChars] in Hall. apply andb_true_iff in Hall as [Hc Hall].
    apply runs_cons
      with (s1 := {| position := advanceChar pos c; text := pre ++ rest |}).
    + rewrite class_run. cbn [text position append]. rewrite Hc. reflexivity.
    + apply IH. exact Hall.
Qed.

Lemma class_stops (pr : string -> bool) (desc : string) (rest : string)
    (pos : Position) (n : nat) :
  headFails pr rest = true ->
  failsAt (Parser.parseIf item pr desc) {| position := pos; text := rest |} n.
Proof.
  intro H. unfold failsAt. rewrite class_run. cbn [text position].
  destruct rest as [|c rest]; [eauto|].
  cbn [headFails] in H. apply negb_true_iff in H. rewrite H. eauto.
Qed.

Lemma chars_length (s : string) : List.length (chars s) = String.length s.
Proof.
  unfold chars. rewrite length_map. induction s as [|c s IH]; cbn; congruence.
Qed.

Lemma many_class_run (pr : string -> bool) (desc : string)
    (pre rest : string) (pos : Position) (n : nat) :
  allChars pr pre = true -> headFails pr rest = true ->
  (String.length pre < n)%nat ->
  parse (Parser.many (Parser.parseIf item pr desc))
      {| position := pos; text := pre ++ rest |} n
    = Some (ParserResult (chars pre)
              {| position := advance pos pre; text := rest |}).
Proof.
  intros Hall Hstop Hn. apply many_run_collects.
  - apply class_runs. exact Hall.
  - apply class_stops. exact Hstop.
  - rewrite chars_length. exact Hn.
Qed.

(** X9: [many] of a character class reads the longest prefix of the text
    made of characters of the class: on a text [pre ++ rest] where every
    character of [pre] is in the class and [rest] is empty or begins
    outside it, the value is the array of the characters of [pre] and the
    state is advanced over [pre], with [rest] remaining. *)
Theorem many_class_longest_prefix (pr : string -> bool) (desc : string)
    (pre rest : string) (pos : Position) (n : nat) :
  allChars pr pre = true -> headFails pr rest = true ->
  (String.length pre < n)%nat ->
  parse (Parser.many (Parser.parseIf item pr desc))
      {| position := pos; text := pre ++ rest |} n
    = Some (ParserResult (chars pre)
              {| position := advance pos pre; text := rest |}).
Proof.
  apply many_class_run.
Qed.

Lemma many_class_longest_prefix_witness :
  parse whitespaces
      {| position := {| line := 1; column := 1 |};
         text := String " " (String LF (String " " "x y")) |} 4
    = Some (ParserResult [" "; newline; " "]
              {| position := {| line := 2; column := 2 |}; text := "x y" |}).
Proof.
  refine (many_class_longest_prefix isWhitespace "a whitespace"
            (String " " (String LF " ")) "x y"
            {| line := 1; column := 1 |} (n := 4) _ _ _).
  - reflexivity.
  - reflexivity.
  - cbn. lia.
Defined.

(** ** Tokens and literals *)

Lemma advance_app (a b : string) (pos : Position) :
  advance pos (a ++ b) = advance (advance pos a) b.
Proof.
  revert pos. induction a as [|c a IH]; intro pos; [reflexivity|].
  cbn [append advance]. apply IH.
Qed.

Lemma str_prefix_run (s rest : string) (pos : Position) (n : nat) :
  parse (str s) {| position := pos; text := s ++ rest |} n
    = Some (ParserResult s {| position := advance pos s; text := rest |}).
Proof.
  rewrite <- (append_nil_r s) at 1. rewrite str_app_run. cbn [str].
  unfold_parsers. rewrite append_nil_r. reflexivity.
Qed.

Lemma str_mismatch_run (pre : string) (c : ascii) (s' : string) (d : ascii)
    (rest : string) (pos : Position) (n : nat) :
  c <> d ->
  parse (str (pre ++ String c s'))
      {| position := pos; text := pre ++ String d rest |} n
    = Some (ParserError (advance pos pre)
              ("Expected " ++ single c ++ ", but got " ++ single d)).
Proof.
  intro Hcd. rewrite str_app_run, str_cons_run, char_run. cbn [text position].
  destruct (Ascii.eqb_spec d c) as [->|_]; [contradiction Hcd; reflexivity|].
  reflexivity.
Qed.

Lemma str_eof_run (pre : string) (c : ascii) (s' : string) (pos : Position)
    (n : nat) :
  parse (str (pre ++ String c s')) {| position := pos; text := pre |} n
    = Some (ParserError (advance pos pre)
              ("Expected " ++ single c ++ ", but reach the end of input")).
Proof.
  rewrite <- (append_nil_r pre) at 2.
  rewrite str_app_run, str_cons_run, char_run. reflexivity.
Qed.

Lemma str_success_prefix (s : string) (input : State) (n : nat) (v : string)
    (st : State) :
  parse (str s) input n = Some (ParserResult v st) ->
  exists rest,
    text input = s ++ rest
    /\ v = s
    /\ st = {| position := advance (position input) s; text := rest |}.
Proof.
  rewrite <- (state_eta input). cbn [position text]. intro Hrun.
  destruct (prefix_cases s (text input))
    as [[rest Ht]|[(pre & c & s' & d & rest & -> & Ht & Hcd)
                  |(pre & c & s' & -> & Ht)]];
    rewrite Ht in Hrun.
  - rewrite str_prefix_run in Hrun. injection Hrun as <- <-.
    exists rest. split; [exact Ht|]. split; reflexivity.
  - rewrite str_mismatch_run in Hrun by exact Hcd. discriminate Hrun.
  - rewrite str_eof_run in Hrun. discriminate Hrun.
Qed.

(** X10: when the text ends inside the literal, after a prefix [pre] of
    it, [str] fails at the position reached after [pre], the end of the
    input, and the message names the character of the literal that was
    to come. *)
Theorem str_truncated (pre : string) (c : ascii) (s' : string)
    (input : State) (n : nat) :
  text input = pre ->
  parse (str (pre ++ String c s')) input n
    = Some (ParserError (advance (position input) pre)
              ("Expected " ++ single c ++ ", but reach the end of input")).
Proof.
  intro Ht. rewrite <- (state_eta input), Ht. cbn [position].
  apply str_eof_run.
Qed.

Lemma str_truncated_witness :
  parse (str "false") (makeInput "fal") 0
    = Some (ParserError {| line := 1; column := 4 |}
              "Expected s, but reach the end of input").
Proof.
  refine (@str_truncated "fal" "s"%char "e" (makeInput "fal") 0 _).
  reflexivity.
Defined.

Lemma advance_newlines (s : string) (pos : Position) :
  line (advance pos s) = line pos + newlines s
  /\ (newlines s = 0 ->
      column (advance pos s) = column pos + Z.of_nat (String.length s))
  /\ (1 <= line pos -> 1 <= column pos ->
      1 <= line (advance pos s) /\ 1 <= column (advance pos s)).
Proof.
  assert (Hnn : forall t, 0 <= newlines t).
  { induction t as [|c t IH]; cbn [newlines]; [lia|].
    destruct (Ascii.eqb c LF); lia. }
  revert pos. induction s as [|c s IH]; intro pos.
  - cbn. repeat split; lia.
  - cbn [advance newlines String.length].
    destruct (IH (advanceChar pos c)) as (Hl & Hc & Hp).
    pose proof (Hnn s) as Hs.
    unfold advanceChar in *. destruct (Ascii.eqb c LF); cbn [line column] in *.
    + split; [lia|]. split; [lia|]. intros H1 H2. apply Hp; lia.
    + split; [lia|]. split; [intro H0; rewrite Hc; lia|].
      intros H1 H2. apply Hp; lia.
Qed.

(** X11: positions follow the text read.  After a success of [str(s)]
    the line has grown by the number of newlines of [s]; when [s] has no
    newline the column has grown by the length of [s]; and a position
    whose line and column are at least 1 stays so. *)
Theorem str_tracks_position (s : string) (input : State) (n : nat)
    (v : string) (st : State) :
  parse (str s) input n = Some (ParserResult v st) ->
  line (position st) = line (position input) + newlines s
  /\ (newlines s = 0 ->
      column (position st)
        = column (position input) + Z.of_nat (String.length s))
  /\ (1 <= line (position input) -> 1 <= column (position input) ->
      1 <= line (position st) /\ 1 <= column (position st)).
Proof.
  intro Hrun. destruct (str_success_prefix _ _ _ Hrun) as (rest & _ & _ & ->).
  cbn [position]. apply advance_newlines.
Qed.

Lemma str_tracks_position_witness :
  line (position {| position := {| line := 3; column := 2 |}; text := "" |})
    = 1 + newlines (String "a" (String LF (String LF "b")))
  /\ 1 <= column (position {| position := {| line := 3; column := 2 |};
                              text := "" |}).
Proof.
  pose proof (str_tracks_position (String "a" (String LF (String LF "b")))
                (makeInput (String "a" (String LF (String LF "b")))) 0
                (v := String "a" (String LF (String LF "b")))
                (st := {| position := {| line := 3; column := 2 |};
                          text := "" |}) eq_refl) as (Hl & _ & Hp).
  split; [exact Hl|].
  apply Hp; cbn; lia.
Defined.

(** X12: [token(p)] fails as [p] fails; after a success of [p] it reads
    the longest run of whitespace that follows and returns the value of
    [p], at the state behind that whitespace. *)
Theorem token_spec {A : Type} (p : Parser A) (s : State) (n : nat) :
  (forall pos msg,
      parse p s n = Some (ParserError pos msg) ->
      parse (token p) s n = Some (ParserError pos msg))
  /\ (forall a st ws rest,
      parse p s n = Some (ParserResult a st) ->
      text st = ws ++ rest ->
      allChars isWhitespace ws = true ->
      headFails isWhitespace rest = true ->
      (String.length ws < n)%nat ->
      parse (token p) s n
        = Some (ParserResult a
                  {| position := advance (position st) ws; text := rest |})).
Proof.
  unfold token. split.
  - intros pos msg Hp. rewrite bind_run, Hp. reflexivity.
  - intros a st ws rest Hp Ht Hws Hrest Hn.
    rewrite bind_run, Hp, bind_run. destruct st as [pst tst].
    cbn [text position] in *. subst tst.
    change whitespaces
      with (Parser.many (Parser.parseIf item isWhitespace "a whitespace")).
    rewrite (many_class_run isWhitespace "a whitespace" ws rest pst
               Hws Hrest Hn).
    reflexivity.
Qed.

Lemma token_spec_witness :
  parse (token digit) (makeInput "7  +") 3
    = Some (ParserResult "7"
              {| position := {| line := 1; column := 4 |}; text := "+" |}).
Proof.
  refine (proj2 (token_spec digit (makeInput "7  +") 3) "7"
            {| position := {| line := 1; column := 2 |}; text := "  +" |}
            "  " "+" _ _ _ _ _).
  - reflexivity.
  - reflexivity.
  - reflexivity.
  - reflexivity.
  - cbn. lia.
Defined.

(** X13: [symbol(s)] on a text that begins with [s] returns [s] and the
    state behind [s] and the longest run of whitespace after it. *)
Theorem symbol_spec (s ws rest : string) (pos : Position) (n : nat) :
  allChars isWhitespace ws = true ->
  headFails isWhitespace rest = true ->
  (String.length ws < n)%nat ->
  parse (symbol s) {| position := pos; text := s ++ ws ++ rest |} n
    = Some (ParserResult s
              {| position := advance pos (s ++ ws); text := rest |}).
Proof.
  intros Hws Hrest Hn. unfold symbol, token.
  rewrite bind_run, str_prefix_run, bind_run.
  change whitespaces
    with (Parser.many (Parser.parseIf item isWhitespace "a whitespace")).
  rewrite (many_class_run isWhitespace "a whitespace" ws rest (advance pos s)
             Hws Hrest Hn).
  cbn [parse Parser.pure]. unfold ret. rewrite advance_app. reflexivity.
Qed.

Lemma symbol_spec_witness :
  parse (symbol "(") (makeInput "( 1)") 2
    = Some (ParserResult "("
              {| position := {| line := 1; column := 3 |}; text := "1)" |}).
Proof.
  refine (symbol_spec "(" " " "1)" {| line := 1; column := 1 |} (n := 2)
            _ _ _).
  - reflexivity.
  - reflexivity.
  - cbn. lia.
Defined.

(** ** Reading one character *)

(** X14: [getCharacterFromInput] returns [null] exactly on an empty text;
    otherwise the character returned is the first of the text, a string of
    length one, the state returned holds the rest of the text, the line
    does not decrease, and a position whose line and column are at least
    1 stays so. *)
Theorem getCharacterFromInput_spec (input : State) :
  (getCharacterFromInput input = None <-> text input = "")
  /\ (forall first rest,
      getCharacterFromInput input = Some (first, rest) ->
      text input = first ++ text rest
      /\ String.length first = 1%nat
      /\ line (position input) <= line (position rest)
      /\ (1 <= line (position input) -> 1 <= column (position input) ->
          1 <= line (position rest) /\ 1 <= column (position rest))).
Proof.
  unfold getCharacterFromInput. split.
  - destruct (text input) as [|c t]; [tauto|].
    destruct (String.eqb (String c "") newline); split; discriminate.
  - intros first rest. destruct (text input) as [|c t]; [discriminate|].
    destruct (String.eqb (String c "") newline); intro H;
      injection H as <- <-; cbn [text position line column append String.length];
      repeat split; lia.
Qed.

Lemma getCharacterFromInput_spec_witness :
  text (makeInput "ab") = "a" ++ "b" /\ String.length "a" = 1%nat.
Proof.
  destruct (proj2 (getCharacterFromInput_spec (makeInput "ab")) "a"
              {| position := {| line := 1; column := 2 |}; text := "b" |}
              eq_refl) as (Ht & Hl & _).
  split; [exact Ht|exact Hl].
Defined.

(** ** The character classes by code *)

Lemma isDigit_code (c : ascii) : isDigit (single c) = inRange 48 57 c.
Proof. destruct c as [[] [] [] [] [] [] [] []]; reflexivity. Qed.

Lemma isLower_code (c : ascii) :
  str_ge (single c) "a" && str_le (single c) "z" = inRange 97 122 c.
Proof. destruct c as [[] [] [] [] [] [] [] []]; reflexivity. Qed.

Lemma isUpper_code (c : ascii) :
  str_ge (single c) "A" && str_le (single c) "Z" = inRange 65 90 c.
Proof. destruct c as [[] [] [] [] [] [] [] []]; reflexivity. Qed.

Lemma isWhitespace_code (c : ascii) :
  isWhitespace (single c)
    = (code c =? 32)%nat || (code c =? 10)%nat || (code c =? 9)%nat.
Proof. destruct c as [[] [] [] [] [] [] [] []]; reflexivity. Qed.

Lemma class_result (pr : string -> bool) (accept : ascii -> bool)
    (desc : string) (s : State) (n : nat) :
  (forall c, pr (single c) = accept c) ->
  parse (Parser.parseIf item pr desc) s n = classResult accept desc s.
Proof.
  intro H. rewrite class_run. unfold classResult.
  destruct (text s) as [|c rest]; [reflexivity|]. rewrite H. reflexivity.
Qed.

(** X15: [digit], [lower], [upper] and [whitespace] accept exactly the
    characters of codes 48 to 57, 97 to 122, 65 to 90, and 32, 10 or 9;
    on any other character, and on the end of the input, they fail at the
    position of the state with a message that names the class. *)
Theorem char_classes (s : State) (n : nat) :
  parse digit s n = classResult (inRange 48 57) "a digit" s
  /\ parse lower s n = classResult (inRange 97 122) "a lower case letter" s
  /\ parse upper s n = classResult (inRange 65 90) "an upper case letter" s
  /\ parse whitespace s n
     = classResult
         (fun c => (code c =? 32)%nat || (code c =? 10)%nat
                   || (code c =? 9)%nat)
         "a whitespace" s.
Proof.
  split; [|split; [|split]].
  - apply class_result, isDigit_code.
  - apply class_result, isLower_code.
  - apply class_result, isUpper_code.
  - apply class_result, isWhitespace_code.
Qed.

(** X16: [letter] accepts exactly the characters that [lower] or [upper]
    accept and [alphanum] those that [letter] or [digit] accept; when
    they fail, the failure is the one of their last alternative:
    [letter] asks for an upper case letter and [alphanum] for a digit. *)
Theorem letter_alphanum (s : State) (n : nat) :
  parse letter s n
    = classResult (fun c => inRange 97 122 c || inRange 65 90 c)
        "an upper case letter" s
  /\ parse alphanum s n
    = classResult
        (fun c => inRange 97 122 c || inRange 65 90 c || inRange 48 57 c)
        "a digit" s.
Proof.
  assert (Hletter : parse letter s n
    = classResult (fun c => inRange 97 122 c || inRange 65 90 c)
        "an upper case letter" s).
  { unfold letter. rewrite choice_run.
    unfold lower at 1. rewrite (@class_result _ _ _ s n isLower_code).
    unfold upper. rewrite (@class_result _ _ _ s n isUpper_code).
    unfold classResult. destruct (text s) as [|c rest]; [reflexivity|].
    destruct (inRange 97 122 c); [reflexivity|].
    destruct (inRange 65 90 c); reflexivity. }
  split; [exact Hletter|].
  unfold alphanum. rewrite choice_run, Hletter.
  unfold digit. rewrite (@class_result _ _ _ s n isDigit_code).
  unfold classResult. destruct (text s) as [|c rest]; [reflexivity|].
  destruct (inRange 97 122 c); [reflexivity|].
  destruct (inRange 65 90 c); [reflexivity|].
  destruct (inRange 48 57 c); reflexivity.
Qed.

(** ** [chainLeft] *)

Lemma chainLeft_rest_step {A : Type} (p : Parser A) (op : Parser (A -> A -> A))
    (d : nat) (a : A) (s : State) (n : nat) :
  parse (Parser.chainLeft_rest (S d) p op a) s n =
  match parse (opThen p op) s n with
  | Some (ParserError _ _) => Some (ParserResult a s)
  | Some (ParserResult fb s1) =>
      match parse (Parser.chainLeft_rest d p op (fst fb a (snd fb))) s1 n with
      | Some (ParserError _ _) => Some (ParserResult a s)
      | Some (ParserResult v st) => Some (ParserResult v st)
      | None => None
      end
  | None => None
  end.
Proof.
  cbn [Parser.chainLeft_rest]. unfold opThen. rewrite choice_run, !bind_run.
  destruct (parse op s n) as [[pos msg|f sa]|]; try reflexivity.
  rewrite !bind_run.
  destruct (parse p sa n) as [[pos msg|b s1]|]; reflexivity.
Qed.

Lemma chainLeft_rest_success {A : Type} (p : Parser A)
    (op : Parser (A -> A -> A)) (d : nat) (a : A) (s : State) (n : nat)
    (r : Result A) :
  parse (Parser.chainLeft_rest d p op a) s n = Some r -> isError r = false.
Proof.
  destruct d as [|d]; [discriminate|]. rewrite chainLeft_rest_step.
  destruct (parse (opThen p op) s n) as [[pos msg|fb s1]|];
    [intro H; injection H as <-; reflexivity| |discriminate].
  destruct (parse (Parser.chainLeft_rest d p op _) s1 n) as [[pos msg|v st]|];
    [| |discriminate]; intro H; injection H as <-; reflexivity.
Qed.

(** X17: [chainLeft(p, op)] fails exactly when its first operand fails,
    with the failure of that operand: once the first [p] has succeeded,
    no failure of [op] or of a later [p] makes the chain fail. *)
Theorem chainLeft_fails_only_first {A : Type} (p : Parser A)
    (op : Parser (A -> A -> A)) (s : State) (n : nat) (pos : Position)
    (msg : string) :
  parse p s n = Some (ParserError pos msg) <->
  parse (Parser.chainLeft p op) s n = Some (ParserError pos msg).
Proof.
  unfold Parser.chainLeft. rewrite bind_run.
  destruct (parse p s n) as [[pos1 msg1|a rest]|]; [tauto| |tauto].
  cbn [parse].
  destruct (parse (Parser.chainLeft_rest n p op a) rest n) as [r|] eqn:E.
  - apply chainLeft_rest_success in E. destruct r; [discriminate E|].
    split; intro H; discriminate H.
  - split; intro H; discriminate H.
Qed.

Lemma chainLeft_rest_fold {A : Type} (p : Parser A) (op : Parser (A -> A -> A))
    (n : nat) (s : State) (pairs : list ((A -> A -> A) * A)) (s' : State) :
  runs (opThen p op) n s pairs s' -> failsAt (opThen p op) s' n ->
  forall d a, (List.length pairs < d)%nat ->
    parse (Parser.chainLeft_rest d p op a) s n
      = Some (ParserResult (foldPairs a pairs) s').
Proof.
  intros Hruns [pos [msg Hstop]].
  induction Hruns as [s|s fb s1 l s' Hfb _ IH]; intros d a Hd.
  - destruct d as [|d]; [inversion Hd|].
    rewrite chainLeft_rest_step, Hstop. reflexivity.
  - destruct d as [|d]; [inversion Hd|]. cbn [List.length] in Hd.
    rewrite chainLeft_rest_step, Hfb, (IH Hstop d) by lia. reflexivity.
Qed.

(** X18: [chainLeft(p, op)] folds to the left.  When the first operand
    [a0] is followed by the pairs of an operator and an operand
    [(f1, b1), ..., (fk, bk)], read one after the other until a pair
    fails, the value is [fk(... f1(a0)(b1) ...)(bk)] and the state is the
    one on which the failing pair started: an operator that is not
    followed by an operand is given back.  The budget must exceed the
    number of pairs. *)
Theorem chainLeft_fold {A : Type} (p : Parser A) (op : Parser (A -> A -> A))
    (s : State) (n : nat) (a0 : A) (s0 : State)
    (pairs : list ((A -> A -> A) * A)) (s' : State) :
  parse p s n = Some (ParserResult a0 s0) ->
  runs (opThen p op) n s0 pairs s' ->
  failsAt (opThen p op) s' n ->
  (List.length pairs < n)%nat ->
  parse (Parser.chainLeft p op) s n
    = Some (ParserResult (foldPairs a0 pairs) s').
Proof.
  intros Hp Hruns Hstop Hn. unfold Parser.chainLeft.
  rewrite bind_run, Hp. cbn [parse].
  exact (chainLeft_rest_fold Hruns Hstop a0 Hn).
Qed.

(** On ["8-3-"], with the subtraction of digits taken as strings, the two
    first digits are chained and the last ["-"], which no digit follows,
    stays in the text. *)
Lemma chainLeft_fold_witness :
  parse (Parser.chainLeft digit
           (Parser.fmap (char "-") (fun _ a b => "(" ++ a ++ "-" ++ b ++ ")")))
      (makeInput "8-3-") 2
    = Some (ParserResult "(8-3)"
              {| position := {| line := 1; column := 4 |}; text := "-" |}).
Proof.
  refine (@chainLeft_fold string digit
            (Parser.fmap (char "-") (fun _ a b => "(" ++ a ++ "-" ++ b ++ ")"))
            (makeInput "8-3-") 2 "8"
            {| position := {| line := 1; column := 2 |}; text := "-3-" |}
            [(fun a b => "(" ++ a ++ "-" ++ b ++ ")", "3")]
            {| position := {| line := 1; column := 4 |}; text := "-" |}
            _ _ _ _).
  - reflexivity.
  - apply runs_cons
      with (s1 := {| position := {| line := 1; column := 4 |}; text := "-" |});
      [reflexivity|apply runs_nil].
  - exists {| line := 1; column := 5 |},
      "Expected a digit, but reach the end of input".
    reflexivity.
  - cbn. lia.
Defined.

(** ** Separated lists *)

(** X19: [sepBy(p, sep)] never fails: when the first [p] fails it
    returns the empty list and the state it was given; when the first [p]
    succeeds with [a], it returns [a] followed by the values of the
    successive runs of [sep] then [p], up to the first such run that
    fails, at the state on which that run started, so that a separator
    without an element after it is given back.  A success of
    [sepBySome(p, sep)] carries a non-empty list. *)
Theorem sepBy_spec {A Sep : Type} (p : Parser A) (sep : Parser Sep)
    (s : State) (n : nat) :
  (forall r, parse (Parser.sepBy p sep) s n = Some r -> isError r = false)
  /\ (forall pos msg,
      parse p s n = Some (ParserError pos msg) ->
      parse (Parser.sepBy p sep) s n = Some (ParserResult [] s))
  /\ (forall a s0 l s',
      parse p s n = Some (ParserResult a s0) ->
      runs (Parser.bind sep (fun _ => p)) n s0 l s' ->
      failsAt (Parser.bind sep (fun _ => p)) s' n ->
      (List.length l < n)%nat ->
      parse (Parser.sepBy p sep) s n = Some (ParserResult (a :: l) s'))
  /\ (forall l st,
      parse (Parser.sepBySome p sep) s n = Some (ParserResult l st) ->
      l <> []).
Proof.
  unfold Parser.sepBy, Parser.sepBySome. split; [|split; [|split]].
  - intro r. rewrite choice_run.
    destruct (parse (Parser.bind p _) s n) as [[pos msg|l st]|];
      [| |discriminate]; intro H; injection H as <-; reflexivity.
  - intros pos msg Hp. rewrite choice_run, bind_run, Hp. reflexivity.
  - intros a s0 l s' Hp Hruns Hstop Hn.
    rewrite choice_run, bind_run, Hp, bind_run.
    rewrite (many_run_collects Hruns Hstop Hn). reflexivity.
  - intros l st. rewrite bind_run.
    destruct (parse p s n) as [[pos msg|a s0]|]; try discriminate.
    rewrite bind_run.
    destruct (parse (Parser.many _) s0 n) as [[pos msg|l' st']|];
      try discriminate.
    cbn. intro H. injection H as <- <-. discriminate.
Qed.

Lemma sepBy_spec_witness :
  parse (Parser.sepBy digit (char ",")) (makeInput "x") 1
    = Some (ParserResult [] (makeInput "x"))
  /\ parse (Parser.sepBy digit (char ",")) (makeInput "1,2,") 2
    = Some (ParserResult ["1"; "2"]
              {| position := {| line := 1; column := 4 |}; text := "," |}).
Proof.
  split.
  - refine (proj1 (proj2 (sepBy_spec digit (char ",") (makeInput "x") 1))
              {| line := 1; column := 1 |} "Expected a digit, but got x" _).
    reflexivity.
  - refine (proj1 (proj2 (proj2 (sepBy_spec digit (char ",")
                                   (makeInput "1,2,") 2)))
              "1"
              {| position := {| line := 1; column := 2 |}; text := ",2," |}
              ["2"]
              {| position := {| line := 1; column := 4 |}; text := "," |}
              _ _ _ _).
    + reflexivity.
    + apply runs_cons
        with (s1 := {| position := {| line := 1; column := 4 |};
                       text := "," |}); [reflexivity|apply runs_nil].
    + exists {| line := 1; column := 5 |},
        "Expected a digit, but reach the end of input".
      reflexivity.
    + cbn. lia.
Defined.

(** ** Numerals of the arithmetic grammar *)

Lemma fmap_run {A B : Type} (p : Parser A) (f : A -> B) (s : State) (n : nat) :
  parse (Parser.fmap p f) s n =
  match parse p s n with
  | Some (ParserError pos msg) => Some (ParserError pos msg)
  | Some (ParserResult v rest) => Some (ParserResult (f v) rest)
  | None => None
  end.
Proof.
  unfold_parsers. destruct (parse p s n) as [[pos msg|v rest]|]; reflexivity.
Qed.

Lemma token_run {A : Type} (p : Parser A) (s : State) (n : nat) (a : A)
    (pst : Position) (ws rest : string) :
  parse p s n = Some (ParserResult a {| position := pst; text := ws ++ rest |}) ->
  allChars isWhitespace ws = true ->
  headFails isWhitespace rest = true ->
  (String.length ws < n)%nat ->
  parse (token p) s n
    = Some (ParserResult a {| position := advance pst ws; text := rest |}).
Proof.
  intros Hp Hws Hrest Hn. unfold token. rewrite bind_run, Hp, bind_run.
  change whitespaces
    with (Parser.many (Parser.parseIf item isWhitespace "a whitespace")).
  rewrite (many_class_run isWhitespace "a whitespace" ws rest pst
             Hws Hrest Hn).
  reflexivity.
Qed.

Lemma join_chars (s : string) : join "" (chars s) = s.
Proof.
  unfold join, chars. induction s as [|c s IH]; [reflexivity|].
  cbn [list_ascii_of_string map String.concat] in *.
  destruct (map single (list_ascii_of_string s)) as [|x xs] eqn:E.
  - cbn in IH. rewrite <- IH. reflexivity.
  - rewrite IH. reflexivity.
Qed.

Lemma append_assoc (a b c : string) : (a ++ b) ++ c = a ++ b ++ c.
Proof.
  induction a as [|x a IH]; [reflexivity|]. cbn [append]. rewrite IH.
  reflexivity.
Qed.

Lemma chars_app (a b : string) : chars (a ++ b) = (chars a ++ chars b)%list.
Proof.
  unfold chars. induction a as [|c a IH]; [reflexivity|].
  cbn [append list_ascii_of_string map app]. rewrite IH. reflexivity.
Qed.

Lemma some_class_run (pr : string -> bool) (desc : string) (ds t : string)
    (pos : Position) (n : nat) :
  ds <> "" -> allChars pr ds = true -> headFails pr t = true ->
  (String.length ds < n)%nat ->
  parse (Parser.some (Parser.parseIf item pr desc))
      {| position := pos; text := ds ++ t |} n
    = Some (ParserResult (chars ds)
              {| position := advance pos ds; text := t |}).
Proof.
  intros Hne Hall Ht Hn. destruct ds as [|c ds]; [contradiction|].
  cbn [allChars] in Hall. apply andb_true_iff in Hall as [Hc Hall].
  cbn [String.length] in Hn. unfold Parser.some.
  rewrite bind_run, class_run. cbn [text position append]. rewrite Hc.
  rewrite bind_run, (many_class_run pr desc ds t _ Hall Ht) by lia.
  reflexivity.
Qed.

Lemma intString_run (ds t : string) (pos : Position) (n : nat) :
  ds <> "" -> allChars isDigit ds = true -> headFails isDigit t = true ->
  (String.length ds < n)%nat ->
  parse Math.intString {| position := pos; text := ds ++ t |} n
    = Some (ParserResult (chars ds)
              {| position := advance pos ds; text := t |}).
Proof. apply (some_class_run isDigit "a digit"). Qed.

Lemma dot_not_digit (t : string) : headFails isDigit (String "." t) = true.
Proof. reflexivity. Qed.

(** X20: [numeric] reads a numeral and the whitespace behind it.  On
    digits [ds] followed by neither a digit nor a dot, the value is the
    number [Number(ds)]; on digits, a dot and digits [rs] followed by no
    digit, it is [Number(ds.rs)].  In both cases the state is the one
    behind the numeral and the longest run of whitespace after it. *)
Theorem numeric_literal (ds ws rest : string) (pos : Position) (n : nat) :
  ds <> "" -> allChars isDigit ds = true ->
  allChars isWhitespace ws = true ->
  headFails isDigit (ws ++ rest) = true ->
  headFails isWhitespace rest = true ->
  (String.length ds < n)%nat -> (String.length ws < n)%nat ->
  (headFails (fun c => String.eqb c ".") (ws ++ rest) = true ->
   parse Math.numeric {| position := pos; text := ds ++ ws ++ rest |} n
     = Some (ParserResult (Math.number (Math.Number ds))
               {| position := advance pos (ds ++ ws); text := rest |}))
  /\ (forall rs,
      rs <> "" -> allChars isDigit rs = true ->
      (String.length rs < n)%nat ->
      parse Math.numeric
          {| position := pos; text := ds ++ "." ++ rs ++ ws ++ rest |} n
        = Some (ParserResult (Math.number (Math.Number (ds ++ "." ++ rs)))
                  {| position := advance pos (ds ++ "." ++ rs ++ ws);
                     text := rest |})).
Proof.
  intros Hne Hds Hws Hfollow Hrest Hnd Hnw. split.
  - intro Hdot. unfold Math.numeric. rewrite fmap_run, bind_run.
    assert (Hlit : parse (Parser.choice Math.realString Math.intString)
                     {| position := pos; text := ds ++ ws ++ rest |} n
                   = Some (ParserResult (chars ds)
                             {| position := advance pos ds;
                                text := ws ++ rest |})).
    { rewrite choice_run. unfold Math.realString.
      rewrite bind_run,
        (@intString_run ds (ws ++ rest) pos n Hne Hds Hfollow Hnd), bind_run.
      change (char ".")
        with (Parser.parseIf item (fun c => String.eqb c ".") ".").
      rewrite class_run. cbn [text position].
      destruct (ws ++ rest) as [|c t]; [reflexivity|].
      cbn [headFails] in Hdot. apply negb_true_iff in Hdot. rewrite Hdot.
      reflexivity. }
    rewrite (@token_run _ _ _ n _ _ ws rest Hlit Hws Hrest Hnw).
    cbn [parse Parser.pure]. unfold ret.
    rewrite join_chars, advance_app. reflexivity.
  - intros rs Hrne Hrs Hnr. unfold Math.numeric. rewrite fmap_run, bind_run.
    assert (Hlit : parse (Parser.choice Math.realString Math.intString)
                     {| position := pos;
                        text := ds ++ "." ++ rs ++ ws ++ rest |} n
                   = Some (ParserResult (chars (ds ++ "." ++ rs))
                             {| position := advance pos (ds ++ "." ++ rs);
                                text := ws ++ rest |})).
    { rewrite choice_run. unfold Math.realString.
      rewrite bind_run.
      rewrite (@intString_run ds ("." ++ rs ++ ws ++ rest) pos n Hne Hds
                 (dot_not_digit _) Hnd).
      rewrite bind_run.
      change (char ".")
        with (Parser.parseIf item (fun c => String.eqb c ".") ".").
      rewrite class_run. cbn [text position append String.eqb single].
      cbn [Ascii.eqb Bool.eqb].
      rewrite bind_run,
        (@intString_run rs (ws ++ rest) _ n Hrne Hrs Hfollow Hnr).
      cbn [parse Parser.pure]. unfold ret.
      rewrite !chars_app, !advance_app. reflexivity. }
    rewrite (@token_run _ _ _ n _ _ ws rest Hlit Hws Hrest Hnw).
    cbn [parse Parser.pure]. unfold ret.
    rewrite join_chars.
    replace (advance pos (ds ++ "." ++ rs ++ ws))
      with (advance (advance pos (ds ++ "." ++ rs)) ws).
    + reflexivity.
    + rewrite <- advance_app, !append_assoc. reflexivity.
Qed.

Lemma numeric_literal_witness :
  parse Math.numeric (makeInput "42  + 1") 3
    = Some (ParserResult (Math.number 42)
              {| position := {| line := 1; column := 5 |}; text := "+ 1" |})
  /\ parse Math.numeric (makeInput "3.25)") 3
    = Some (ParserResult (Math.number 3.25)
              {| position := {| line := 1; column := 5 |}; text := ")" |}).
Proof.
  split.
  - refine (proj1 (@numeric_literal "42" "  " "+ 1"
                     {| line := 1; column := 1 |} 3 _ _ _ _ _ _ _) _);
      try reflexivity; try (cbn; lia).
    intro H. discriminate H.
  - refine (proj2 (@numeric_literal "3" "" ")"
                     {| line := 1; column := 1 |} 3 _ _ _ _ _ _ _) "25" _ _ _);
      try reflexivity; try (cbn; lia); intro H; discriminate H.
Defined.

(** ** What the expression parser rejects *)

Lemma lazyChoice_run {A : Type} (p1 p2 : Lazy (Parser A)) (s : State)
    (n : nat) :
  parse (Parser.lazyChoice p1 p2) s n =
  match parse (p1 tt) s n with
  | Some (ParserError _ _) => parse (p2 tt) s n
  | Some (ParserResult v rest) => Some (ParserResult v rest)
  | None => None
  end.
Proof.
  unfold_parsers. destruct (parse (p1 tt) s n) as [[pos msg|v rest]|];
    reflexivity.
Qed.

Lemma digit_fails (s : State) (n : nat) :
  headFails isDigit (text s) = true -> failsAt digit s n.
Proof.
  intro H. rewrite <- (state_eta s). apply class_stops. exact H.
Qed.

Lemma numeric_fails (s : State) (n : nat) :
  headFails isDigit (text s) = true -> failsAt Math.numeric s n.
Proof.
  intro H. destruct (digit_fails s n H) as (pos & msg & Hd).
  exists pos, msg. unfold Math.numeric.
  rewrite fmap_run, bind_run. unfold token. rewrite bind_run, choice_run.
  unfold Math.realString, Math.intString, Parser.some.
  rewrite !bind_run, Hd. reflexivity.
Qed.

(** X21: on a text that begins with neither a digit nor an opening
    parenthesis, and on the end of the input, the expression parser
    fails at the position of the state, and its message asks for the
    parenthesis: the failure of the numeral, tried first, is dropped. *)
Theorem expr_rejects (s : State) (n : nat) :
  (1 <= n)%nat ->
  headFails isDigit (text s) = true ->
  headFails (fun c => String.eqb c "(") (text s) = true ->
  parse Math.expr s n
    = Some (ParserError (position s)
              ("Expected (, but "
                 ++ match text s with
                    | "" => "reach the end of input"
                    | String c _ => "got " ++ single c
                    end)).
Proof.
  intros Hn Hdigit Hparen. destruct n as [|d]; [inversion Hn|].
  unfold Math.expr, Math.lazyExpr. cbn [parse Math.lazyExpr_upto].
  unfold Parser.chainLeft at 1. rewrite bind_run.
  unfold Math.lazyTerm_of, Parser.chainLeft at 1. rewrite bind_run.
  unfold Math.lazyFactor_of. rewrite lazyChoice_run.
  destruct (numeric_fails s (S d) Hdigit) as (pos & msg & ->).
  unfold symbol, token. rewrite !bind_run. cbn [str]. rewrite bind_run.
  change (char "(") with (Parser.parseIf item (fun c => String.eqb c "(") "(").
  rewrite class_run.
  destruct (text s) as [|c t]; [reflexivity|].
  cbn [headFails] in Hparen. apply negb_true_iff in Hparen. rewrite Hparen.
  reflexivity.
Qed.

Lemma expr_rejects_witness :
  parse Math.expr (makeInput "") 1
    = Some (ParserError {| line := 1; column := 1 |}
              "Expected (, but reach the end of input")
  /\ parse Math.expr (makeInput "a") 1
    = Some (ParserError {| line := 1; column := 1 |} "Expected (, but got a").
Proof.
  split.
  - refine (@expr_rejects (makeInput "") 1 _ _ _);
      [lia|reflexivity|reflexivity].
  - refine (@expr_rejects (makeInput "a") 1 _ _ _);
      [lia|reflexivity|reflexivity].
Defined.

(** ** Literals of the JSON grammar *)

Lemma str_success_iff (s : string) (input : State) (n : nat) (v : string)
    (st : State) :
  parse (str s) input n = Some (ParserResult v st) <->
  exists rest,
    text input = s ++ rest
    /\ v = s
    /\ st = {| position := advance (position input) s; text := rest |}.
Proof.
  split; [apply str_success_prefix|].
  intros (rest & Ht & -> & ->). rewrite <- (state_eta input) at 1.
  rewrite Ht. apply str_prefix_run.
Qed.

Lemma str_total (s : string) (input : State) (n : nat) :
  parse (str s) input n <> None.
Proof.
  rewrite <- (state_eta input).
  destruct (prefix_cases s (text input))
    as [[rest Ht]|[(pre & c & s' & d & rest & -> & Ht & Hcd)
                  |(pre & c & s' & -> & Ht)]];
    rewrite Ht.
  - rewrite str_prefix_run. discriminate.
  - rewrite str_mismatch_run by exact Hcd. discriminate.
  - rewrite str_eof_run. discriminate.
Qed.

(** X22: [jsonNull] succeeds exactly on the texts that begin with
    ["null"], [jsonBool] exactly on those that begin with ["true"] or
    ["false"]; the value is [NULL], [TRUE] or [FALSE] accordingly and the
    state is the one behind the word.  When [jsonBool] fails, its failure
    is the one of the literal ["false"]. *)
Theorem json_literals (s : State) (n : nat) :
  (forall v st,
      parse Json.jsonNull s n = Some (ParserResult v st) <->
      exists rest,
        text s = "null" ++ rest /\ v = Json.NULL
        /\ st = {| position := advance (position s) "null"; text := rest |})
  /\ (forall v st,
      parse Json.jsonBool s n = Some (ParserResult v st) <->
      exists rest,
        (text s = "true" ++ rest /\ v = Json.TRUE
         /\ st = {| position := advance (position s) "true"; text := rest |})
        \/ (text s = "false" ++ rest /\ v = Json.FALSE
            /\ st = {| position := advance (position s) "false";
                       text := rest |}))
  /\ (forall pos msg,
      parse Json.jsonBool s n = Some (ParserError pos msg) ->
      parse (str "false") s n = Some (ParserError pos msg)).
Proof.
  unfold Json.jsonNull, Json.jsonBool. split; [|split].
  - intros v st. rewrite fmap_run.
    destruct (parse (str "null") s n) as [[pos msg|v0 st0]|] eqn:E.
    + split; [discriminate|]. intros (rest & Ht & _ & _).
      assert (E' : parse (str "null") s n
                   = Some (ParserResult "null"
                             {| position := advance (position s) "null";
                                text := rest |})).
      { apply str_success_iff. exists rest. repeat split. exact Ht. }
      rewrite E in E'. discriminate E'.
    + apply str_success_iff in E as (rest & Ht & -> & ->). split.
      * intro H. injection H as <- <-. exists rest. repeat split. exact Ht.
      * intros (rest' & Ht' & -> & ->). rewrite Ht in Ht'.
        cbn in Ht'. injection Ht' as <-. reflexivity.
    + destruct (str_total _ _ _ E).
  - intros v st. rewrite choice_run, !fmap_run.
    destruct (parse (str "true") s n) as [[pos msg|v0 st0]|] eqn:E.
    + destruct (parse (str "false") s n) as [[pos2 msg2|v1 st1]|] eqn:E2.
      * split; [discriminate|].
        intros (rest & [(Ht & _ & _)|(Ht & _ & _)]).
        -- assert (E' : parse (str "true") s n
                     = Some (ParserResult "true"
                               {| position := advance (position s) "true";
                                  text := rest |})).
           { apply str_success_iff. exists rest. repeat split. exact Ht. }
           rewrite E in E'. discriminate E'.
        -- assert (E' : parse (str "false") s n
                     = Some (ParserResult "false"
                               {| position := advance (position s) "false";
                                  text := rest |})).
           { apply str_success_iff. exists rest. repeat split. exact Ht. }
           rewrite E2 in E'. discriminate E'.
      * apply str_success_iff in E2 as (rest & Ht & -> & ->). split.
        -- intro H. injection H as <- <-. exists rest. right.
           repeat split. exact Ht.
        -- intros (rest' & [(Ht' & _ & _)|(Ht' & -> & ->)]);
             rewrite Ht in Ht'; cbn in Ht'; [discriminate Ht'|].
           injection Ht' as <-. reflexivity.
      * destruct (str_total _ _ _ E2).
    + apply str_success_iff in E as (rest & Ht & -> & ->). split.
      * intro H. injection H as <- <-. exists rest. left.
        repeat split. exact Ht.
      * intros (rest' & [(Ht' & -> & ->)|(Ht' & _ & _)]);
          rewrite Ht in Ht'; cbn in Ht'; [|discriminate Ht'].
        injection Ht' as <-. reflexivity.
    + destruct (str_total _ _ _ E).
  - intros pos msg. rewrite choice_run, !fmap_run.
    destruct (parse (str "true") s n) as [[pos1 msg1|v0 st0]|];
      [|discriminate|discriminate].
    destruct (parse (str "false") s n) as [[pos2 msg2|v1 st1]|];
      [|discriminate|discriminate].
    intro H. injection H as <- <-. reflexivity.
Qed.

Lemma json_literals_witness :
  parse (str "false") (makeInput "tru") 0
    = Some (ParserError {| line := 1; column := 1 |} "Expected f, but got t").
Proof.
  refine (proj2 (proj2 (json_literals (makeInput "tru") 0))
            {| line := 1; column := 1 |} "Expected f, but got t" _).
  reflexivity.
Defined.

(** ** The integer part of a JSON number *)

Lemma nonZero_digit (c : ascii) :
  inRange 49 57 c = true ->
  isDigit (single c) = true
  /\ String.eqb (single c) "0" = false.
Proof.
  destruct c as [[] [] [] [] [] [] [] []]; cbn; intro H;
    try discriminate H; split; reflexivity.
Qed.

(** X23: [integer] reads ["0"] alone or a non-zero digit and the longest
    run of digits after it.  After a leading ["0"] it stops, whatever
    follows: further digits stay in the text.  The value is the text
    read. *)
Theorem json_integer (pos : Position) (n : nat) :
  (forall rest,
      parse Json.integer {| position := pos; text := String "0" rest |} n
        = Some (ParserResult "0"
                  {| position := advance pos "0"; text := rest |}))
  /\ (forall c ds rest,
      inRange 49 57 c = true ->
      allChars isDigit ds = true ->
      headFails isDigit rest = true ->
      (String.length ds < n)%nat ->
      parse Json.integer
          {| position := pos; text := String c (ds ++ rest) |} n
        = Some (ParserResult (String c ds)
                  {| position := advance pos (String c ds); text := rest |})).
Proof.
  unfold Json.integer. split.
  - intro rest. rewrite choice_run. reflexivity.
  - intros c ds rest Hc Hds Hrest Hn.
    destruct (nonZero_digit c Hc) as [Hdigit Hnz].
    rewrite choice_run.
    change (char "0") with (Parser.parseIf item (fun x => String.eqb x "0") "0").
    rewrite class_run. cbn [text position]. rewrite Hnz.
    rewrite bind_run. unfold nonZero. rewrite parseIf_run.
    change digit with (Parser.parseIf item isDigit "a digit").
    rewrite class_run. cbn [text position]. rewrite Hdigit, Hnz.
    cbn [negb]. rewrite bind_run.
    rewrite (many_class_run isDigit "a digit" ds rest _ Hds Hrest Hn).
    cbn [parse Parser.pure]. unfold ret.
    change (single c :: chars ds) with (chars (String c ds)).
    rewrite join_chars. reflexivity.
Qed.

Lemma json_integer_witness :
  parse Json.integer (makeInput "120,") 3
    = Some (ParserResult "120"
              {| position := {| line := 1; column := 4 |}; text := "," |}).
Proof.
  refine (proj2 (json_integer {| line := 1; column := 1 |} 3)
            "1"%char "20" "," _ _ _ _).
  - reflexivity.
  - reflexivity.
  - reflexivity.
  - cbn. lia.
Defined.

(** ** Repetition of a parser that does not consume *)

Lemma many_upto_loops {A : Type} (p : Parser A) (s : State) :
  (forall n, parse p s n = None
             \/ exists a, parse p s n = Some (ParserResult a s)) ->
  forall d n, parse (Parser.many_upto d p) s n = None.
Proof.
  intros Hp d. induction d as [|d IH]; intro n; [reflexivity|].
  rewrite many_upto_step. destruct (Hp n) as [->|[a ->]]; [reflexivity|].
  rewrite IH. reflexivity.
Qed.

(** X24: on a state where [p], whenever it returns, succeeds and leaves
    the state as it was, neither [many(p)] nor [some(p)] ever returns,
    whatever the budget: nothing guards the repetition against a parser
    that consumes nothing. *)
Theorem many_loops {A : Type} (p : Parser A) (s : State) :
  (forall n, parse p s n = None
             \/ exists a, parse p s n = Some (ParserResult a s)) ->
  forall n, parse (Parser.many p) s n = None
            /\ parse (Parser.some p) s n = None.
Proof.
  intros Hp n.
  assert (Hmany : parse (Parser.many p) s n = None).
  { unfold Parser.many. cbn [parse]. apply many_upto_loops. exact Hp. }
  split; [exact Hmany|].
  unfold Parser.some. rewrite bind_run.
  destruct (Hp n) as [->|[a ->]]; [reflexivity|].
  rewrite bind_run, Hmany. reflexivity.
Qed.

(** [whitespaces] succeeds on ["x"] without reading anything, so that
    [many(whitespaces)] does not return on it. *)
Lemma many_loops_witness :
  parse (Parser.many whitespaces) (makeInput "x") 50 = None.
Proof.
  refine (proj1 (@many_loops _ whitespaces (makeInput "x") _ 50%nat)).
  intro m. destruct m as [|m]; [left; reflexivity|].
  right. exists []. unfold whitespaces. rewrite many_unfold. reflexivity.
Defined.
